(** * swc: frame-update orchestrator and evdev input pump

  A shallow embedding of [libswc/compositor.c] and
  [libswc/evdev_device.c], and the properties of the frame pipeline and
  of the input translation proved (or refuted) on it.

  Conventions of the embedding:
  - a [uint32_t] is a [Z] in [0, 2^32); bit operations are [Z.land],
    [Z.lor], and complement is taken inside 32 bits ([U32.not]);
  - a pixman region is a finite list of boxes, read as the set of
    points it covers ([Region.contains]);
  - calls into collaborators (renderer, DRM, event loop, seat handlers)
    are recorded, in program order, in the list of events returned next
    to the new state;
  - an automatic variable read before any assignment has the value
    [None]. *)

From Stdlib Require Import ZArith List Bool Lia String Permutation.
Import ListNotations.
Local Open Scope Z_scope.

(** ** 32-bit unsigned and signed machine integers *)

Module U32.

Definition modulus : Z := 2 ^ 32.
Definition max : Z := 4294967295.

(** Conversion of a mathematical integer to [uint32_t]. *)
Definition wrap (z : Z) : Z := z mod modulus.

(** Reading the 32 bits of a [uint32_t] as an [int32_t]. *)
Definition signed (z : Z) : Z :=
  let u := wrap z in if u <? 2 ^ 31 then u else u - modulus.

(** [~x] on a [uint32_t]. *)
Definition not (x : Z) : Z := Z.land (Z.lnot x) max.

Definition in_range (z : Z) : Prop := 0 <= z < modulus.

End U32.

(** ** Regions (pixman_region32_t), as finite unions of boxes *)

Module Region.

(** [pixman_box32_t]: the half-open box [x1, x2) x [y1, y2). *)
Record box := Box { x1 : Z; y1 : Z; x2 : Z; y2 : Z }.

Definition t := list box.

Definition box_contains (b : box) (x y : Z) : bool :=
  (x1 b <=? x) && (x <? x2 b) && (y1 b <=? y) && (y <? y2 b).

(** [pixman_region32_contains_point]. *)
Definition contains (r : t) (x y : Z) : bool :=
  existsb (fun b => box_contains b x y) r.

Definition box_not_empty (b : box) : bool :=
  (x1 b <? x2 b) && (y1 b <? y2 b).

(** [pixman_region32_not_empty]. *)
Definition not_empty (r : t) : bool := existsb box_not_empty r.

(** [pixman_region32_init] / [pixman_region32_clear]. *)
Definition empty : t := [].

(** [pixman_region32_init_rect (x, y, width, height)]. *)
Definition init_rect (x y w h : Z) : t := [Box x y (x + w) (y + h)].

(** [pixman_region32_init_with_extents]. *)
Definition init_with_extents (b : box) : t := [b].

(** [pixman_region32_union]. *)
Definition union (a b : t) : t := a ++ b.

Definition box_translate (dx dy : Z) (b : box) : box :=
  Box (x1 b + dx) (y1 b + dy) (x2 b + dx) (y2 b + dy).

(** [pixman_region32_translate]. *)
Definition translate (r : t) (dx dy : Z) : t := map (box_translate dx dy) r.

Definition box_intersect (a b : box) : box :=
  Box (Z.max (x1 a) (x1 b)) (Z.max (y1 a) (y1 b))
      (Z.min (x2 a) (x2 b)) (Z.min (y2 a) (y2 b)).

(** [pixman_region32_intersect_rect (r, x, y, width, height)]. *)
Definition intersect_rect (r : t) (x y w h : Z) : t :=
  map (box_intersect (Box x y (x + w) (y + h))) r.

(** The part of box [a] outside box [b]: a strip above, a strip below,
    and what is left and right of [b] in between. *)
Definition box_subtract (a b : box) : t :=
  [ Box (x1 a) (y1 a) (x2 a) (Z.min (y2 a) (y1 b));
    Box (x1 a) (Z.max (y1 a) (y2 b)) (x2 a) (y2 a);
    Box (x1 a) (Z.max (y1 a) (y1 b))
        (Z.min (x2 a) (x1 b)) (Z.min (y2 a) (y2 b));
    Box (Z.max (x1 a) (x2 b)) (Z.max (y1 a) (y1 b))
        (x2 a) (Z.min (y2 a) (y2 b)) ].

Definition subtract_box (r : t) (b : box) : t :=
  flat_map (fun a => box_subtract a b) r.

(** [pixman_region32_subtract (a, b)]: [a] with every box of [b] cut
    out. *)
Definition subtract (a b : t) : t := fold_left subtract_box b a.

(** Two regions are the same region when they cover the same points. *)
Definition equiv (a b : t) : Prop :=
  forall x y, contains a x y = contains b x y.

(** The union of a family of regions. *)
Definition big_union (rs : list t) : t := fold_right union empty rs.

End Region.

(** ** libswc/compositor.c *)

Module Compositor.

(** [struct swc_rectangle]: position and size in the global coordinate
    space. *)
Record swc_rectangle := Rectangle { x : Z; y : Z; width : Z; height : Z }.

(** [struct swc_compositor_surface_state]: the class state the
    compositor keeps for a surface ([border.damaged] is the only field of
    [border] this file reads). *)
Record swc_compositor_surface_state := SurfaceClassState {
  clip : Region.t;
  extents : Region.box;
  border_damaged : bool
}.

(** [struct swc_surface]: [state_damage], [state_opaque] and
    [state_input] are [state.damage], [state.opaque] and [state.input],
    in surface-local coordinates. *)
Record swc_surface := Surface {
  state_damage : Region.t;
  state_opaque : Region.t;
  state_input : Region.t;
  geometry : swc_rectangle;
  class_state : swc_compositor_surface_state
}.

(** [struct swc_output]. *)
Record swc_output := Output {
  id : Z;
  output_geometry : swc_rectangle;
  previous_damage : Region.t
}.

(** [struct swc_binding]; the handler is a function pointer and [data]
    its user pointer, both kept as the address they hold. *)
Record swc_binding := Binding {
  value : Z;
  modifiers : Z;
  handler : Z;
  data : Z
}.

(** What [handle_key] asks of the seat's [xkb.state] (libxkbcommon):
    the keysym of a key code, the serialized effective modifier mask, and
    the removal of the modifiers a key consumes from a mask. *)
Record xkb_state := XkbState {
  xkb_state_key_get_one_sym : Z -> Z;
  xkb_state_serialize_mods_effective : Z;
  xkb_state_mod_mask_remove_consumed : Z -> Z -> Z
}.

(** [seat->xkb.indices]. *)
Record xkb_indices := XkbIndices { ctrl : Z; alt : Z; super : Z; shift : Z }.

Record swc_xkb := Xkb { state : xkb_state; indices : xkb_indices }.

(** [struct swc_compositor], the fields this file's functions touch. *)
Record swc_compositor := Compositor {
  surfaces : list swc_surface;
  outputs : list swc_output;
  damage : Region.t;
  opaque : Region.t;
  scheduled_updates : Z;
  pending_flips : Z;
  key_bindings : list swc_binding;
  seat_xkb : swc_xkb
}.

(** Calls that leave this file, in program order; a printed line is
    kept without its tab and newline. *)
Inductive event :=
| Stdout (line : string)
| Stderr (line : string)
| RendererFlush (surface : swc_surface)
| RendererSetTarget (output : Z)
| RendererRepaint (damage base_damage : Region.t) (surfaces : list swc_surface)
| PlaneFlip (output : Z)
| SendFrameCallbacks (surface : swc_surface) (time : Z)
| DrmSetMaster
| DrmDropMaster
| AddIdle_perform_update
| BindingHandler (handler time value data : Z).

Inductive swc_tty_event := SWC_TTY_VT_ENTER | SWC_TTY_VT_LEAVE.

(** [struct swc_drm_event_data] of a [SWC_DRM_PAGE_FLIP] event. *)
Inductive swc_drm_event :=
| SWC_DRM_PAGE_FLIP (output : swc_output) (time : Z).

Definition WL_KEYBOARD_KEY_STATE_PRESSED : Z := 1.

(** Modelled from the spec: the macro [SWC_OUTPUT_MASK] of [output.h],
    which is not among the sources. The spec gives an output the identity
    bit [2^n]; here [n] is the output's [id] and the bit is taken in the
    32-bit masks it is combined with. *)
Definition SWC_OUTPUT_MASK (o : swc_output) : Z :=
  U32.wrap (Z.shiftl 1 (id o)).

Definition set_clip (cs : swc_compositor_surface_state) (r : Region.t) :=
  SurfaceClassState r (extents cs) (border_damaged cs).

Definition set_border_damaged (cs : swc_compositor_surface_state) (b : bool) :=
  SurfaceClassState (clip cs) (extents cs) b.

Definition set_class_state (s : swc_surface) cs :=
  Surface (state_damage s) (state_opaque s) (state_input s) (geometry s) cs.

Definition set_state_damage (s : swc_surface) (r : Region.t) :=
  Surface r (state_opaque s) (state_input s) (geometry s) (class_state s).

Definition set_previous_damage (o : swc_output) (r : Region.t) :=
  Output (id o) (output_geometry o) r.

Definition set_damage (c : swc_compositor) (r : Region.t) :=
  Compositor (surfaces c) (outputs c) r (opaque c) (scheduled_updates c)
             (pending_flips c) (key_bindings c) (seat_xkb c).

Definition set_opaque (c : swc_compositor) (r : Region.t) :=
  Compositor (surfaces c) (outputs c) (damage c) r (scheduled_updates c)
             (pending_flips c) (key_bindings c) (seat_xkb c).

Definition set_surfaces (c : swc_compositor) ss :=
  Compositor ss (outputs c) (damage c) (opaque c) (scheduled_updates c)
             (pending_flips c) (key_bindings c) (seat_xkb c).

Definition set_outputs (c : swc_compositor) os :=
  Compositor (surfaces c) os (damage c) (opaque c) (scheduled_updates c)
             (pending_flips c) (key_bindings c) (seat_xkb c).

Definition set_scheduled_updates (c : swc_compositor) (m : Z) :=
  Compositor (surfaces c) (outputs c) (damage c) (opaque c) m
             (pending_flips c) (key_bindings c) (seat_xkb c).

Definition set_pending_flips (c : swc_compositor) (m : Z) :=
  Compositor (surfaces c) (outputs c) (damage c) (opaque c)
             (scheduled_updates c) m (key_bindings c) (seat_xkb c).

(** The surface's opaque region in global coordinates. *)
Definition surface_opaque (s : swc_surface) : Region.t :=
  Region.translate (state_opaque s) (x (geometry s)) (y (geometry s)).

(** One iteration of the loop of [calculate_damage]: [opq] and [dmg] are
    [compositor->opaque] and [compositor->damage] on entry; the surface,
    both regions and the renderer calls come back. *)
Definition calculate_damage_surface (opq dmg : Region.t) (s : swc_surface)
  : swc_surface * Region.t * Region.t * list event :=
  let g := geometry s in
  (* Clip the surface by the opaque region covering it. *)
  let s := set_class_state s (set_clip (class_state s) opq) in
  (* Add the surface's opaque region to the accumulated opaque region. *)
  let opq := Region.union opq (surface_opaque s) in
  let '(s, dmg, ev) :=
    if Region.not_empty (state_damage s) then
      let d := Region.translate (state_damage s) (x g) (y g) in
      (set_state_damage s Region.empty, Region.union dmg d, [RendererFlush s])
    else (s, dmg, []) in
  let '(s, dmg) :=
    if border_damaged (class_state s) then
      let border_region := Region.init_with_extents (extents (class_state s)) in
      let surface_region := Region.init_rect (x g) (y g) (width g) (height g) in
      let border_region := Region.subtract border_region surface_region in
      (set_class_state s (set_border_damaged (class_state s) false),
       Region.union dmg border_region)
    else (s, dmg) in
  (s, opq, dmg, ev).

(** The [wl_list_for_each] of [calculate_damage], top surface first. *)
Fixpoint calculate_damage_loop (ss : list swc_surface) (opq dmg : Region.t)
  : list swc_surface * Region.t * Region.t * list event :=
  match ss with
  | [] => ([], opq, dmg, [])
  | s :: rest =>
      let '(s', opq, dmg, ev) := calculate_damage_surface opq dmg s in
      let '(rest', opq, dmg, ev') := calculate_damage_loop rest opq dmg in
      (s' :: rest', opq, dmg, ev ++ ev')
  end.

Definition calculate_damage (c : swc_compositor) : swc_compositor * list event :=
  let '(ss, opq, dmg, ev) :=
    calculate_damage_loop (surfaces c) Region.empty (damage c) in
  (set_damage (set_opaque (set_surfaces c ss) opq) dmg, ev).

Section WithPlanes.

(** [swc_plane_flip], by output: whether the flip could be submitted. *)
Variable swc_plane_flip : Z -> bool.

Definition repaint_output (c : swc_compositor) (o : swc_output)
  : swc_compositor * swc_output * list event :=
  let g := output_geometry o in
  let damage0 :=
    Region.intersect_rect (damage c) (x g) (y g) (width g) (height g) in
  (* Save the damage of the previous frame, remember this frame's. *)
  let previous := previous_damage o in
  let o := set_previous_damage o damage0 in
  (* New frame's damage together with the last frame's. *)
  let total := Region.union damage0 previous in
  let base_damage := Region.subtract total (opaque c) in
  let c' := set_damage c (Region.subtract (damage c) total) in
  (c', o,
   [RendererSetTarget (id o); RendererRepaint total base_damage (surfaces c);
    PlaneFlip (id o)]
   ++ (if swc_plane_flip (id o) then [] else [Stderr "Plane flip failed"])).

(** The [wl_list_for_each] over the outputs in [perform_update]. *)
Fixpoint repaint_outputs (updates : Z) (c : swc_compositor)
         (os : list swc_output) : swc_compositor * list swc_output * list event :=
  match os with
  | [] => (c, [], [])
  | o :: rest =>
      let '(c, o, ev) :=
        if Z.land updates (SWC_OUTPUT_MASK o) =? 0 then (c, o, [])
        else repaint_output c o in
      let '(c, rest, ev') := repaint_outputs updates c rest in
      (c, o :: rest, ev ++ ev')
  end.

Definition perform_update (c : swc_compositor) : swc_compositor * list event :=
  let updates := Z.land (scheduled_updates c) (U32.not (pending_flips c)) in
  if updates =? 0 then (c, [])
  else
    let '(c1, ev1) := calculate_damage c in
    let '(c2, os, ev2) := repaint_outputs updates c1 (outputs c1) in
    let c3 := set_outputs c2 os in
    let c4 := set_pending_flips c3 (Z.lor (pending_flips c3) updates) in
    let c5 := set_scheduled_updates c4
                (Z.land (scheduled_updates c4) (U32.not updates)) in
    (c5, [Stdout "performing update"] ++ ev1 ++ ev2).

Definition handle_tty_event (c : swc_compositor) (e : swc_tty_event)
  : swc_compositor * list event :=
  match e with
  | SWC_TTY_VT_ENTER => (c, [DrmSetMaster])
  | SWC_TTY_VT_LEAVE => (c, [DrmDropMaster])
  end.

Definition handle_drm_event (c : swc_compositor) (e : swc_drm_event)
  : swc_compositor * list event :=
  match e with
  | SWC_DRM_PAGE_FLIP o time =>
      let c := set_pending_flips c
                 (Z.land (pending_flips c) (U32.not (SWC_OUTPUT_MASK o))) in
      let ev :=
        if pending_flips c =? 0
        then map (fun s => SendFrameCallbacks s time) (surfaces c)
        else [] in
      (* Run the updates that were waiting on a page flip. *)
      if scheduled_updates c =? 0 then (c, ev)
      else let '(c, ev') := perform_update c in (c, ev ++ ev')
  end.

Definition swc_compositor_schedule_update (c : swc_compositor) (o : swc_output)
  : swc_compositor * list event :=
  let update_scheduled := negb (scheduled_updates c =? 0) in
  if negb (Z.land (scheduled_updates c) (SWC_OUTPUT_MASK o) =? 0) then (c, [])
  else
    let c := set_scheduled_updates c
               (Z.lor (scheduled_updates c) (SWC_OUTPUT_MASK o)) in
    if negb update_scheduled then (c, [AddIdle_perform_update]) else (c, []).

End WithPlanes.

Section WithModifiers.

(** The modifier flags and the sentinel of the public header, which is
    not among the sources: taken as they come. *)
Variables SWC_MOD_CTRL SWC_MOD_ALT SWC_MOD_LOGO SWC_MOD_SHIFT SWC_MOD_ANY : Z.

(** [if (mod_mask & (1 << index)) modifiers |= flag;] *)
Definition add_modifier (mod_mask index flag modifiers : Z) : Z :=
  if Z.land mod_mask (Z.shiftl 1 index) =? 0 then modifiers
  else Z.lor modifiers flag.

(** The compositor's modifier flags for a key: the effective modifiers
    less those the key consumes, mapped from XKB indices to flags. *)
Definition key_modifiers (xkb : swc_xkb) (key : Z) : Z :=
  let mod_mask := xkb_state_serialize_mods_effective (state xkb) in
  let mod_mask :=
    xkb_state_mod_mask_remove_consumed (state xkb) (key + 8) mod_mask in
  let modifiers := 0 in
  let modifiers := add_modifier mod_mask (ctrl (indices xkb)) SWC_MOD_CTRL modifiers in
  let modifiers := add_modifier mod_mask (alt (indices xkb)) SWC_MOD_ALT modifiers in
  let modifiers := add_modifier mod_mask (super (indices xkb)) SWC_MOD_LOGO modifiers in
  let modifiers := add_modifier mod_mask (shift (indices xkb)) SWC_MOD_SHIFT modifiers in
  modifiers.

(** The [wl_array_for_each] of [handle_key]: [Some] of the handler call
    at the first binding that passes both tests, [None] when the scan
    runs off the end. *)
Fixpoint scan_bindings (xkb : swc_xkb) (time key keysym : Z)
         (bs : list swc_binding) : option (list event) :=
  match bs with
  | [] => None
  | binding :: rest =>
      if value binding =? keysym then
        let mods := key_modifiers xkb key in
        if (modifiers binding =? SWC_MOD_ANY) || (modifiers binding =? mods)
        then Some [BindingHandler (handler binding) time keysym (data binding);
                   Stdout "-> handled"]
        else scan_bindings xkb time key keysym rest
      else scan_bindings xkb time key keysym rest
  end.

Definition handle_key (c : swc_compositor) (time key key_state : Z)
  : bool * list event :=
  if key_state =? WL_KEYBOARD_KEY_STATE_PRESSED then
    let keysym := xkb_state_key_get_one_sym (state (seat_xkb c)) (key + 8) in
    match scan_bindings (seat_xkb c) time key keysym (key_bindings c) with
    | Some ev => (true, ev)
    | None => (false, [])
    end
  else (false, []).

(** [swc_compositor_add_key_binding]: [wl_array_add] appends. *)
Definition swc_compositor_add_key_binding (c : swc_compositor)
           (modifiers value handler data : Z) : swc_compositor :=
  Compositor (surfaces c) (outputs c) (damage c) (opaque c)
             (scheduled_updates c) (pending_flips c)
             (key_bindings c ++ [Binding value modifiers handler data])
             (seat_xkb c).

End WithModifiers.

(** *** Reading the event lists *)

(** The outputs the renderer was pointed at, in order. *)
Definition repainted (ev : list event) : list Z :=
  flat_map (fun e => match e with RendererSetTarget o => [o] | _ => [] end) ev.

(** The outputs whose plane was flipped, in order. *)
Definition flipped (ev : list event) : list Z :=
  flat_map (fun e => match e with PlaneFlip o => [o] | _ => [] end) ev.

(** The frame callbacks sent: surface and time, in order. *)
Definition frame_callbacks (ev : list event) : list (swc_surface * Z) :=
  flat_map (fun e => match e with
                     | SendFrameCallbacks s t => [(s, t)]
                     | _ => []
                     end) ev.

(** The [perform_update] idle tasks put on the event loop. *)
Definition idle_tasks (ev : list event) : list event :=
  filter (fun e => match e with AddIdle_perform_update => true | _ => false end) ev.

(** A run of [swc_compositor_schedule_update] calls with nothing in
    between. *)
Fixpoint schedule_updates (c : swc_compositor) (os : list swc_output)
  : swc_compositor * list event :=
  match os with
  | [] => (c, [])
  | o :: rest =>
      let '(c, ev) := swc_compositor_schedule_update c o in
      let '(c, ev') := schedule_updates c rest in
      (c, ev ++ ev')
  end.

(** What happens on the event loop between two flip completions: an
    output is scheduled, or the loop runs one idle task. The number next
    to the compositor counts the [perform_update] idle tasks waiting on
    the loop. *)
Inductive loop_step :=
| Schedule (o : swc_output)
| IdleTick.

Definition run_step (flip : Z -> bool) (st : swc_compositor * nat)
           (s : loop_step) : swc_compositor * nat :=
  let '(c, queued) := st in
  match s with
  | Schedule o =>
      let '(c', ev) := swc_compositor_schedule_update c o in
      (c', (queued + List.length (idle_tasks ev))%nat)
  | IdleTick =>
      match queued with
      | O => (c, O)
      | S n => (fst (perform_update flip c), n)
      end
  end.

Definition run_steps (flip : Z -> bool) (st : swc_compositor * nat)
           (steps : list loop_step) : swc_compositor * nat :=
  fold_left (run_step flip) steps st.

Definition step_output_ok (s : loop_step) : Prop :=
  match s with
  | Schedule o => 0 <= id o < 32
  | IdleTick => True
  end.

(** Whether [perform_update] services an output for the update set
    [updates]. *)
Definition serviced (updates : Z) (o : swc_output) : bool :=
  negb (Z.land updates (SWC_OUTPUT_MASK o) =? 0).

(** The rectangle of a geometry, as a test on points. *)
Definition in_rectangle (g : swc_rectangle) (px py : Z) : bool :=
  (x g <=? px) && (px <? x g + width g) && (y g <=? py) && (py <? y g + height g).

(** The binding test in the words of the specification: the value is the
    keysym, and the modifiers are the sentinel or the effective ones. *)
Definition binding_matches (any : Z) (keysym effective_modifiers : Z)
           (b : swc_binding) : bool :=
  (value b =? keysym)
  && ((modifiers b =? any) || (modifiers b =? effective_modifiers)).

(** *** States used as instances *)

Definition no_xkb : swc_xkb :=
  Xkb (XkbState (fun k => k) 0 (fun _ m => m)) (XkbIndices 2 3 6 0).

Definition output0 : swc_output :=
  Output 0 (Rectangle 0 0 1920 1080) Region.empty.

Definition output1 : swc_output :=
  Output 1 (Rectangle 1920 0 1920 1080) Region.empty.

(** Scenario S1 of the specification: a surface at (100, 100) of
    200 x 150, all of it damaged, nothing opaque. *)
Definition surface0 : swc_surface :=
  Surface (Region.init_rect 0 0 200 150) Region.empty
          (Region.init_rect 0 0 200 150) (Rectangle 100 100 200 150)
          (SurfaceClassState Region.empty (Region.Box 100 100 300 250) false).

(** The compositor as [swc_compositor_initialize] leaves it, with two
    outputs, after one surface was attached. *)
Definition compositor0 : swc_compositor :=
  Compositor [surface0] [output0; output1] Region.empty Region.empty 0 0 []
             no_xkb.

Definition flip_ok (_ : Z) : bool := true.

(** Scenario S3 of the specification: [surface_a] on top, opaque over
    its 100 x 100 geometry; [surface_b] below it, same geometry, all of
    it damaged. *)
Definition surface_a : swc_surface :=
  Surface Region.empty (Region.init_rect 0 0 100 100)
          (Region.init_rect 0 0 100 100) (Rectangle 0 0 100 100)
          (SurfaceClassState Region.empty (Region.Box 0 0 100 100) false).

Definition surface_b : swc_surface :=
  Surface (Region.init_rect 0 0 100 100) Region.empty
          (Region.init_rect 0 0 100 100) (Rectangle 0 0 100 100)
          (SurfaceClassState Region.empty (Region.Box 0 0 100 100) false).

Definition compositor_s3 : swc_compositor :=
  Compositor [surface_a; surface_b] [output0] Region.empty Region.empty 1 0 []
             no_xkb.

(** The same with the two surfaces in the other order. *)
Definition compositor_s3_swapped : swc_compositor :=
  set_surfaces compositor_s3 [surface_b; surface_a].

(** Scenario S1 under way: output 0 was scheduled, and then the idle
    task ran, which flipped it. *)
Definition compositor_s1_scheduled : swc_compositor :=
  fst (swc_compositor_schedule_update compositor0 output0).

Definition compositor_s1_flipping : swc_compositor :=
  fst (perform_update flip_ok compositor_s1_scheduled).



(** [surface_b] made opaque over its geometry as well. *)
Definition surface_b_opaque : swc_surface :=
  Surface (Region.init_rect 0 0 100 100) (Region.init_rect 0 0 100 100)
          (Region.init_rect 0 0 100 100) (Rectangle 0 0 100 100)
          (SurfaceClassState Region.empty (Region.Box 0 0 100 100) false).

(** Scenario S4 of the specification: Shift and Control are effective,
    the key consumes Shift. XKB modifier indices: Shift 0, Control 2,
    Alt 3, Super 6; key code 30 has keysym 65. *)
Definition xkb_s4 : swc_xkb :=
  Xkb (XkbState (fun k => if k =? 38 then 65 else 0) 5
                (fun k m => if k =? 38 then Z.land m (Z.lnot 1) else m))
      (XkbIndices 2 3 6 0).

(** One binding on keysym 65 with modifier flag 1, then one with flag 8,
    for flags Control 1, Alt 2, Logo 4, Shift 8. *)
Definition compositor_s4 : swc_compositor :=
  Compositor [] [output0] Region.empty Region.empty 0 0
             [Binding 65 8 200 20; Binding 65 1 100 10; Binding 65 1 300 30]
             xkb_s4.

(** *** The rest of compositor.c *)

(** [wl_fixed_to_int]: [f / 256], rounding toward zero. *)
Definition wl_fixed_to_int (f : Z) : Z := Z.quot f 256.

(** The scan of [handle_focus], top surface first, for the pointer at
    the 24.8 position [(px, py)]: the surface handed to
    [swc_pointer_set_focus], [None] for [NULL]. The coordinates local to
    a surface are computed in [int32_t]. (The region the function builds
    from the surface's geometry is never read.) *)
Fixpoint handle_focus_scan (px py : Z) (ss : list swc_surface)
  : option swc_surface :=
  match ss with
  | [] => None
  | surface :: rest =>
      let surface_x := U32.signed (wl_fixed_to_int px - x (geometry surface)) in
      let surface_y := U32.signed (wl_fixed_to_int py - y (geometry surface)) in
      if Region.contains (state_input surface) surface_x surface_y
      then Some surface
      else handle_focus_scan px py rest
  end.

Definition handle_focus (c : swc_compositor) (px py : Z) : option swc_surface :=
  handle_focus_scan px py (surfaces c).

(** Keysyms of xkbcommon. *)
Definition XKB_KEY_BackSpace : Z := 65288.
Definition XKB_KEY_XF86Switch_VT_1 : Z := 269024769.
Definition XKB_KEY_XF86Switch_VT_12 : Z := 269024780.

(** What the two binding handlers of this file call. *)
Inductive handler_call :=
| HandlerPrint (line : string)
| HandlerPrintVt (vt : Z)
| DisplayTerminate
| TtySwitchVt (vt : Z).

Definition handle_terminate (time value : Z) : list handler_call :=
  [HandlerPrint "handling terminate"; DisplayTerminate].

(** [handle_switch_vt]; [tty_vt] is [tty->vt], and [vt] a [uint8_t]. *)
Definition handle_switch_vt (tty_vt : Z) (time value : Z) : list handler_call :=
  let vt := (value - XKB_KEY_XF86Switch_VT_1 + 1) mod 256 in
  [HandlerPrintVt vt]
  ++ (if negb (vt =? tty_vt) then [TtySwitchVt vt] else []).

(** [bind_compositor]: the version the resource is created with. *)
Definition bind_compositor_version (version : Z) : Z :=
  if 3 <=? version then 3 else version.

Definition set_key_bindings (c : swc_compositor) (bs : list swc_binding) :=
  Compositor (surfaces c) (outputs c) (damage c) (opaque c)
             (scheduled_updates c) (pending_flips c) bs (seat_xkb c).

(** The parts [swc_compositor_initialize] brings up, in its order. *)
Inductive component := Udev | Tty | Seat | Drm | Renderer.

(** What the collaborators answer during [swc_compositor_initialize]:
    whether each part comes up, and the outputs [swc_drm_create_outputs]
    finds ([None] for [NULL]). *)
Record init_answers := InitAnswers {
  udev_new : bool;
  swc_tty_initialize : bool;
  swc_seat_initialize : bool;
  swc_drm_initialize : bool;
  swc_renderer_initialize : bool;
  swc_drm_create_outputs : option (list swc_output)
}.

(** Calls of [swc_compositor_initialize] and [swc_compositor_finish]. *)
Inductive lifecycle_call :=
| Initialize (part : component)
| Finalize (part : component)
| CreateOutputs
| SeatAddEventSources
| DrmAddEventSources
| SeatSetPointerRegion (region : Region.t)
| LifecyclePrint (line : string)
| EmitDestroySignal
| ReleaseKeyBindings
| OutputFinish (output : Z)
| FreeOutput (output : Z).

Section WithHandlers.

Variables SWC_MOD_CTRL SWC_MOD_ALT SWC_MOD_ANY : Z.

(** The addresses of [handle_terminate] and [handle_switch_vt], and the
    user pointers they are registered with: the display and
    [&compositor->tty]. *)
Variables handle_terminate_ptr handle_switch_vt_ptr display_ptr tty_ptr : Z.

(** The [for] loop over the keysyms [XF86Switch_VT_1 .. _12]; [fuel]
    bounds the iterations. *)
Fixpoint add_switch_vt_bindings (fuel : nat) (keysym : Z) (c : swc_compositor)
  : swc_compositor :=
  match fuel with
  | O => c
  | S fuel =>
      if keysym <=? XKB_KEY_XF86Switch_VT_12 then
        add_switch_vt_bindings fuel (keysym + 1)
          (swc_compositor_add_key_binding c SWC_MOD_ANY keysym
                                          handle_switch_vt_ptr tty_ptr)
      else c
  end.

(** The pointer region: the union of the outputs' rectangles. *)
Fixpoint pointer_region_loop (os : list swc_output) (region : Region.t)
  : Region.t :=
  match os with
  | [] => region
  | output :: rest =>
      let g := output_geometry output in
      pointer_region_loop rest
        (Region.union region (Region.init_rect (x g) (y g) (width g) (height g)))
  end.

(** [swc_compositor_initialize]: [None] for [false], with the calls made
    on the way. [xkb] is the keyboard state the seat brings. *)
Definition swc_compositor_initialize (a : init_answers) (xkb : swc_xkb)
  : option swc_compositor * list lifecycle_call :=
  if negb (udev_new a) then
    (None, [Initialize Udev;
            LifecyclePrint "could not initialize udev context"])
  else if negb (swc_tty_initialize a) then
    (None, [Initialize Udev; Initialize Tty;
            LifecyclePrint "could not initialize tty";
            Finalize Udev])
  else if negb (swc_seat_initialize a) then
    (None, [Initialize Udev; Initialize Tty; Initialize Seat;
            LifecyclePrint "could not initialize seat";
            Finalize Tty; Finalize Udev])
  else if negb (swc_drm_initialize a) then
    (None, [Initialize Udev; Initialize Tty; Initialize Seat;
            SeatAddEventSources; Initialize Drm;
            LifecyclePrint "could not initialize drm";
            Finalize Seat; Finalize Tty; Finalize Udev])
  else if negb (swc_renderer_initialize a) then
    (None, [Initialize Udev; Initialize Tty; Initialize Seat;
            SeatAddEventSources; Initialize Drm; DrmAddEventSources;
            Initialize Renderer;
            LifecyclePrint "could not initialize renderer";
            Finalize Drm; Finalize Seat; Finalize Tty; Finalize Udev])
  else
    match swc_drm_create_outputs a with
    | None =>
        (None, [Initialize Udev; Initialize Tty; Initialize Seat;
                SeatAddEventSources; Initialize Drm; DrmAddEventSources;
                Initialize Renderer; CreateOutputs;
                LifecyclePrint "could not create outputs";
                Finalize Renderer; Finalize Drm; Finalize Seat; Finalize Tty;
                Finalize Udev])
    | Some os =>
        let pointer_region := pointer_region_loop os Region.empty in
        let c := Compositor [] os Region.empty Region.empty 0 0 [] xkb in
        let c := swc_compositor_add_key_binding c
                   (Z.lor SWC_MOD_CTRL SWC_MOD_ALT) XKB_KEY_BackSpace
                   handle_terminate_ptr display_ptr in
        let c := add_switch_vt_bindings
                   (Z.to_nat (XKB_KEY_XF86Switch_VT_12 + 1
                              - XKB_KEY_XF86Switch_VT_1))
                   XKB_KEY_XF86Switch_VT_1 c in
        (Some c, [Initialize Udev; Initialize Tty; Initialize Seat;
                  SeatAddEventSources; Initialize Drm; DrmAddEventSources;
                  Initialize Renderer; CreateOutputs;
                  SeatSetPointerRegion pointer_region])
    end.

End WithHandlers.


(** The parts finalized by a list of calls, in order. *)
Definition finalized (calls : list lifecycle_call) : list component :=
  flat_map (fun e => match e with Finalize p => [p] | _ => [] end) calls.

(** The parts that came up: the longest run of successes from the
    start. *)
Definition brought_up (a : init_answers) : list component :=
  if negb (udev_new a) then []
  else if negb (swc_tty_initialize a) then [Udev]
  else if negb (swc_seat_initialize a) then [Udev; Tty]
  else if negb (swc_drm_initialize a) then [Udev; Tty; Seat]
  else if negb (swc_renderer_initialize a) then [Udev; Tty; Seat; Drm]
  else [Udev; Tty; Seat; Drm; Renderer].

(** The surfaces the renderer was asked to flush. *)
Definition flushes (ev : list event) : list swc_surface :=
  flat_map (fun e => match e with RendererFlush s => [s] | _ => [] end) ev.

(** What a surface adds to the damage in [calculate_damage], as a test
    on points: its damage at its position, and its border when that is
    damaged, the border being the extents outside the surface
    rectangle. *)
Definition surface_damage_at (s : swc_surface) (px py : Z) : bool :=
  Region.contains (state_damage s) (px - x (geometry s)) (py - y (geometry s))
  || (border_damaged (class_state s)
      && Region.box_contains (extents (class_state s)) px py
      && negb (in_rectangle (geometry s) px py)).

(** A surface with nothing left to report: no damage, border clean. *)
Definition surface_clean (s : swc_surface) : bool :=
  negb (Region.not_empty (state_damage s))
  && negb (border_damaged (class_state s)).

(** Whether the pointer at the 24.8 position [(px, py)] is in the input
    region of a surface, the region being in surface coordinates. *)
Definition pointer_in_input (px py : Z) (s : swc_surface) : bool :=
  Region.contains (state_input s)
                  (U32.signed (wl_fixed_to_int px - x (geometry s)))
                  (U32.signed (wl_fixed_to_int py - y (geometry s))).



(** The points of the rectangles of a list of outputs. *)
Definition on_outputs (os : list swc_output) (px py : Z) : bool :=
  existsb (fun o => in_rectangle (output_geometry o) px py) os.

(** More instances: the answers of a start where everything comes up,
    with the two outputs; and flags Control 1, Alt 2, sentinel all ones,
    handlers at 100 and 200, display at 10, tty at 20. *)
Definition answers_ok : init_answers :=
  InitAnswers true true true true true (Some [output0; output1]).

Definition initialized_with (xkb : swc_xkb) : option swc_compositor :=
  fst (swc_compositor_initialize 1 2 4294967295 100 200 10 20 answers_ok xkb).

(** A keyboard on which key 61 gives XF86Switch_VT_3 while Shift is
    held; and one on which key 14 gives BackSpace while Control and Alt
    are held. *)
Definition xkb_vt3 : swc_xkb :=
  Xkb (XkbState (fun _ => XKB_KEY_XF86Switch_VT_1 + 2) 1 (fun _ m => m))
      (XkbIndices 2 3 6 0).

Definition xkb_ctrl_alt_backspace : swc_xkb :=
  Xkb (XkbState (fun _ => XKB_KEY_BackSpace) 12 (fun _ m => m))
      (XkbIndices 2 3 6 0).

Definition compositor_vt3 : swc_compositor :=
  match initialized_with xkb_vt3 with Some c => c | None => compositor0 end.

Definition compositor_ctrl_alt_backspace : swc_compositor :=
  match initialized_with xkb_ctrl_alt_backspace with
  | Some c => c
  | None => compositor0
  end.

(** *** The claims on opaque regions and modifiers, by points and bits *)

(** In the words of the specification: the point [(px, py)] of the
    global space lies in the opaque region of the surface translated by
    the surface's geometry origin, that is, the point less the origin
    lies in [state.opaque]. *)
Definition opaque_at (px py : Z) (s : swc_surface) : bool :=
  Region.contains (state_opaque s) (px - x (geometry s)) (py - y (geometry s)).

(** In the words of the specification: the modifier flags of an XKB
    mask are the flags, among Control, Alt, Logo and Shift, whose XKB
    modifier index is a bit of the mask. *)
Definition modifier_table (ctrl_flag alt_flag logo_flag shift_flag : Z)
           (ix : xkb_indices) : list (Z * Z) :=
  [(ctrl ix, ctrl_flag); (alt ix, alt_flag); (super ix, logo_flag);
   (shift ix, shift_flag)].

Definition flags_of_mask (table : list (Z * Z)) (mod_mask : Z) : Z :=
  fold_left Z.lor
            (map snd (filter (fun entry => Z.testbit mod_mask (fst entry)) table))
            0.

(** The effective modifiers of a key: the serialized effective mask,
    with the modifiers the key consumes removed by
    [xkb_state_mod_mask_remove_consumed], as flags. *)
Definition effective_modifiers (ctrl_flag alt_flag logo_flag shift_flag : Z)
           (xkb : swc_xkb) (key : Z) : Z :=
  flags_of_mask
    (modifier_table ctrl_flag alt_flag logo_flag shift_flag (indices xkb))
    (xkb_state_mod_mask_remove_consumed
       (state xkb) (key + 8)
       (xkb_state_serialize_mods_effective (state xkb))).

(** Two surfaces away from the origin: the upper one at (100, 50),
    opaque over its 40 x 30; the lower one at (10, 20), opaque over the
    20 x 10 at (5, 5) inside it. *)
Definition surface_p : swc_surface :=
  Surface Region.empty (Region.init_rect 0 0 40 30)
          (Region.init_rect 0 0 40 30) (Rectangle 100 50 40 30)
          (SurfaceClassState Region.empty (Region.Box 100 50 140 80) false).

Definition surface_q : swc_surface :=
  Surface Region.empty (Region.init_rect 5 5 20 10)
          (Region.init_rect 0 0 200 100) (Rectangle 10 20 200 100)
          (SurfaceClassState Region.empty (Region.Box 10 20 210 120) false).

Definition compositor_offset : swc_compositor :=
  Compositor [surface_p; surface_q] [output0] Region.empty Region.empty 1 0 []
             no_xkb.

Definition compositor_offset_swapped : swc_compositor :=
  set_surfaces compositor_offset [surface_q; surface_p].

End Compositor.

(** ** libswc/evdev_device.c *)

Module Evdev.

(** [struct timeval] and [struct input_event] of the kernel. *)
Record timeval := Timeval { tv_sec : Z; tv_usec : Z }.

Record input_event := InputEvent {
  time : timeval;
  type : Z;
  code : Z;
  value : Z
}.

(** [device->motion.rel]. *)
Record rel_motion := RelMotion { dx : Z; dy : Z; pending : bool }.

(** [struct swc_evdev_device], the fields the event pump touches. *)
Record swc_evdev_device := Device {
  capabilities : Z;
  motion_rel : rel_motion
}.

(** Calls of [device->handler]. An argument is [None] when the variable
    passed was never assigned. The [amount] of [Axis] is the value of the
    [uint32_t] local [amount]. *)
Inductive callback :=
| Key (time code state : Z)
| Button (time code state : Z)
| Axis (time : Z) (axis amount : option Z)
| RelativeMotion (time : option Z) (dx dy : Z).

(** Constants of linux/input-event-codes.h, wayland and libevdev. *)
Definition EV_KEY : Z := 1.
Definition EV_REL : Z := 2.
Definition EV_ABS : Z := 3.
Definition REL_X : Z := 0.
Definition REL_Y : Z := 1.
Definition REL_Z : Z := 2.
Definition REL_HWHEEL : Z := 6.
Definition REL_DIAL : Z := 7.
Definition REL_WHEEL : Z := 8.
Definition ABS_X : Z := 0.
Definition ABS_Y : Z := 1.
Definition BTN_MISC : Z := 256.
Definition BTN_GEAR_UP : Z := 337.
Definition BTN_TRIGGER_HAPPY : Z := 704.
Definition WL_POINTER_BUTTON_STATE_RELEASED : Z := 0.
Definition WL_POINTER_BUTTON_STATE_PRESSED : Z := 1.
Definition WL_KEYBOARD_KEY_STATE_RELEASED : Z := 0.
Definition WL_KEYBOARD_KEY_STATE_PRESSED : Z := 1.
Definition WL_POINTER_AXIS_VERTICAL_SCROLL : Z := 0.
Definition WL_POINTER_AXIS_HORIZONTAL_SCROLL : Z := 1.
Definition LIBEVDEV_READ_STATUS_SUCCESS : Z := 0.
Definition LIBEVDEV_READ_STATUS_SYNC : Z := 1.
Definition EAGAIN : Z := 11.

Definition AXIS_STEP_DISTANCE : Z := 10.

(** [wl_fixed_from_int]: [i * 256] in [int32_t]. *)
Definition wl_fixed_from_int (i : Z) : Z := U32.signed (i * 256).

Definition timeval_to_msec (t : timeval) : Z :=
  U32.wrap (tv_sec t * 1000 + Z.quot (tv_usec t) 1000).

Definition set_motion_rel (d : swc_evdev_device) (m : rel_motion) :=
  Device (capabilities d) m.

Definition handle_key_event (device : swc_evdev_device) (e : input_event)
  : swc_evdev_device * list callback :=
  let time := timeval_to_msec (time e) in
  if ((BTN_MISC <=? code e) && (code e <=? BTN_GEAR_UP))
     || (BTN_TRIGGER_HAPPY <=? code e)
  then
    let state := if value e =? 0 then WL_POINTER_BUTTON_STATE_RELEASED
                 else WL_POINTER_BUTTON_STATE_PRESSED in
    (device, [Button time (code e) state])
  else
    let state := if value e =? 0 then WL_KEYBOARD_KEY_STATE_RELEASED
                 else WL_KEYBOARD_KEY_STATE_PRESSED in
    (device, [Key time (code e) state]).

(** The locals [axis] and [amount] are declared without a value; the
    [switch] has four cases and no default, and whatever it leaves in the
    two locals goes to the axis handler. *)
Definition handle_rel_event (device : swc_evdev_device) (e : input_event)
  : swc_evdev_device * list callback :=
  let time := timeval_to_msec (time e) in
  let axis : option Z := None in
  let amount : option Z := None in
  let rel := motion_rel device in
  if code e =? REL_X then
    (set_motion_rel device (RelMotion (U32.signed (dx rel + value e)) (dy rel) true),
     [])
  else if code e =? REL_Y then
    (set_motion_rel device (RelMotion (dx rel) (U32.signed (dy rel + value e)) true),
     [])
  else
    let '(axis, amount) :=
      if code e =? REL_WHEEL then
        (Some WL_POINTER_AXIS_VERTICAL_SCROLL,
         Some (U32.wrap (- AXIS_STEP_DISTANCE * wl_fixed_from_int (value e))))
      else if code e =? REL_HWHEEL then
        (Some WL_POINTER_AXIS_HORIZONTAL_SCROLL,
         Some (U32.wrap (AXIS_STEP_DISTANCE * wl_fixed_from_int (value e))))
      else (axis, amount) in
    (device, [Axis time axis amount]).

Definition handle_abs_event (device : swc_evdev_device) (e : input_event)
  : swc_evdev_device * list callback :=
  (device, []).

Definition event_handler :=
  swc_evdev_device -> input_event -> swc_evdev_device * list callback.

(** The table [event_handlers]: three designated entries, the rest of
    the four slots null. *)
Definition event_handlers (type : Z) : option event_handler :=
  if type =? EV_KEY then Some handle_key_event
  else if type =? EV_REL then Some handle_rel_event
  else if type =? EV_ABS then Some handle_abs_event
  else None.

Definition ARRAY_SIZE_event_handlers : Z := 4.

Definition is_motion_event (e : input_event) : bool :=
  ((type e =? EV_REL) && ((code e =? REL_X) || (code e =? REL_Y)))
  || ((type e =? EV_ABS) && ((code e =? ABS_X) || (code e =? ABS_Y))).

(** [time] is [None] when the caller computed it from an event that was
    never written. *)
Definition handle_motion_events (device : swc_evdev_device) (time : option Z)
  : swc_evdev_device * list callback :=
  let rel := motion_rel device in
  if pending rel then
    let fdx := wl_fixed_from_int (dx rel) in
    let fdy := wl_fixed_from_int (dy rel) in
    (set_motion_rel device (RelMotion 0 0 false), [RelativeMotion time fdx fdy])
  else (device, []).

(** What one call of [libevdev_next_event] does: [Again] returns
    [-EAGAIN] and leaves [event] alone, [Read ret e] returns [ret] after
    writing [e] to [event]. A device is driven by the list of the
    results of its successive calls; past the end of the list every call
    is [Again]. *)
Inductive next_event :=
| Again
| Read (ret : Z) (e : input_event).

(** The body of the outer loop after the two reads: flush the motion
    if the event is not a motion event, then dispatch on its type. *)
Definition handle_event (device : swc_evdev_device) (e : input_event)
  : swc_evdev_device * list callback :=
  let '(device, cb) :=
    if negb (is_motion_event e)
    then handle_motion_events device (Some (timeval_to_msec (time e)))
    else (device, []) in
  let '(device, cb') :=
    if type e <? ARRAY_SIZE_event_handlers then
      match event_handlers (type e) with
      | Some h => h device e
      | None => (device, [])
      end
    else (device, []) in
  (device, cb ++ cb').

(** Where the two nested loops of [handle_data] stand before a call of
    [libevdev_next_event]: at the top of the outer loop, [event] written
    or not so far; or in the inner loop, the last call having returned
    [LIBEVDEV_READ_STATUS_SYNC] and written [event]. *)
Inductive loop_point :=
| OuterRead (event : option input_event)
| SyncRead (event : input_event).

(** The loops of [handle_data], one call of [libevdev_next_event] per
    step. The result is the device, the handler calls, the content of
    [event] at the [break] and the calls not yet made. *)
Fixpoint read_loop (calls : list next_event) (pt : loop_point)
         (device : swc_evdev_device)
  : swc_evdev_device * list callback * option input_event * list next_event :=
  match calls, pt with
  | [], OuterRead event => (device, [], event, [])
  | [], SyncRead event =>
      (* the inner loop ends on -EAGAIN, the body runs, the next read
         breaks *)
      let '(device, cb) := handle_event device event in
      (device, cb, Some event, [])
  | Again :: rest, OuterRead event => (device, [], event, rest)
  | Again :: rest, SyncRead event =>
      let '(device, cb) := handle_event device event in
      let '(device, cb', event', rest') :=
        read_loop rest (OuterRead (Some event)) device in
      (device, cb ++ cb', event', rest')
  | Read ret e :: rest, _ =>
      if ret =? - EAGAIN then
        match pt with
        | OuterRead _ => (device, [], Some e, rest)
        | SyncRead _ =>
            let '(device, cb) := handle_event device e in
            let '(device, cb', event', rest') :=
              read_loop rest (OuterRead (Some e)) device in
            (device, cb ++ cb', event', rest')
        end
      else if ret =? LIBEVDEV_READ_STATUS_SYNC then
        read_loop rest (SyncRead e) device
      else
        let '(device, cb) := handle_event device e in
        let '(device, cb', event', rest') :=
          read_loop rest (OuterRead (Some e)) device in
        (device, cb ++ cb', event', rest')
  end.

(** The argument of the call of [handle_motion_events] after the loop:
    [timeval_to_msec (&event.time)], of the [event] the loop left. *)
Definition handle_data_flush_time (device : swc_evdev_device)
           (calls : list next_event) : option Z :=
  let '(_, _, event, _) := read_loop calls (OuterRead None) device in
  option_map (fun e => timeval_to_msec (time e)) event.

(** [handle_data]; its C result is 1 on every path and is left out. *)
Definition handle_data (device : swc_evdev_device) (calls : list next_event)
  : swc_evdev_device * list callback * list next_event :=
  let '(device', cb, _, rest) := read_loop calls (OuterRead None) device in
  let '(device', cb') :=
    handle_motion_events device' (handle_data_flush_time device calls) in
  (device', cb ++ cb', rest).

(** The device as [swc_evdev_device_new] leaves it: the capabilities
    found, and [motion] zeroed. *)
Definition new_device (capabilities : Z) : swc_evdev_device :=
  Device capabilities (RelMotion 0 0 false).

(** *** Opening a device *)

Definition KEY_ENTER : Z := 28.
Definition BTN_MOUSE : Z := 272.
Definition WL_SEAT_CAPABILITY_POINTER : Z := 1.
Definition WL_SEAT_CAPABILITY_KEYBOARD : Z := 2.

(** What the system answers to [swc_evdev_device_new]: whether [malloc]
    gives memory, the descriptor [swc_launch_open_device] returns, what
    [libevdev_new_from_fd] returns, and the event codes the device
    reports. *)
Record open_answers := OpenAnswers {
  malloc_ok : bool;
  swc_launch_open_device : Z;
  libevdev_new_from_fd : Z;
  libevdev_has_event_code : Z -> Z -> bool
}.

Inductive open_call :=
| Malloc
| OpenDevice
| NewFromFd (fd : Z)
| Close (fd : Z)
| Free
| LogError (line : string).

(** [swc_evdev_device_new]: [None] for [NULL]. *)
Definition swc_evdev_device_new (a : open_answers)
  : option swc_evdev_device * list open_call :=
  if negb (malloc_ok a) then (None, [Malloc])
  else
    let fd := swc_launch_open_device a in
    if fd =? -1 then
      (None, [Malloc; OpenDevice; LogError "Failed to open input device"])
    else if negb (libevdev_new_from_fd a =? 0) then
      (None, [Malloc; OpenDevice; NewFromFd fd;
              LogError "Failed to create libevdev device"; Close fd])
    else
      let capabilities := 0 in
      let capabilities :=
        if libevdev_has_event_code a EV_KEY KEY_ENTER
        then Z.lor capabilities WL_SEAT_CAPABILITY_KEYBOARD
        else capabilities in
      let capabilities :=
        if libevdev_has_event_code a EV_REL REL_X
           && libevdev_has_event_code a EV_REL REL_Y
           && libevdev_has_event_code a EV_KEY BTN_MOUSE
        then Z.lor capabilities WL_SEAT_CAPABILITY_POINTER
        else capabilities in
      (Some (Device capabilities (RelMotion 0 0 false)),
       [Malloc; OpenDevice; NewFromFd fd]).

(** *** Reading runs of events *)

(** A relative motion event: type [EV_REL], code [REL_X] or [REL_Y]. *)
Definition is_rel_motion (e : input_event) : bool :=
  (type e =? EV_REL) && ((code e =? REL_X) || (code e =? REL_Y)).

(** The sum of the values of the events of a run with a given code. *)
Definition total (c : Z) (es : list input_event) : Z :=
  fold_right (fun e acc => (if code e =? c then value e else 0) + acc) 0 es.

(** The memory taken and given back, and the descriptors opened and
    closed, by a list of calls. *)
Definition frees (calls : list open_call) : nat :=
  List.length (filter (fun c => match c with Free => true | _ => false end) calls).

Definition closes (calls : list open_call) : list Z :=
  flat_map (fun c => match c with Close fd => [fd] | _ => [] end) calls.

Definition relative_motions (cb : list callback) : list callback :=
  filter (fun c => match c with RelativeMotion _ _ _ => true | _ => false end) cb.

End Evdev.

(** ** Point-set reading of the region operations *)

Module RegionFacts.

Import Region.

Ltac bool_lia :=
  repeat match goal with
         | |- context [?a <=? ?b] => destruct (Z.leb_spec a b)
         | |- context [?a <? ?b] => destruct (Z.ltb_spec a b)
         end; simpl; try reflexivity; try lia.

Lemma contains_empty x y : contains empty x y = false.
Proof. reflexivity. Qed.

Lemma contains_union a b x y :
  contains (union a b) x y = contains a x y || contains b x y.
Proof. unfold contains, union. apply existsb_app. Qed.

Lemma contains_init_rect x0 y0 w h x y :
  contains (init_rect x0 y0 w h) x y =
  (x0 <=? x) && (x <? x0 + w) && (y0 <=? y) && (y <? y0 + h).
Proof. unfold contains, init_rect, box_contains; simpl. apply orb_false_r. Qed.

Lemma box_contains_translate dx dy b x y :
  box_contains (box_translate dx dy b) x y = box_contains b (x - dx) (y - dy).
Proof. unfold box_contains, box_translate; simpl. bool_lia. Qed.

Lemma contains_translate r dx dy x y :
  contains (translate r dx dy) x y = contains r (x - dx) (y - dy).
Proof.
  unfold contains, translate.
  induction r as [|b r IH]; simpl; [reflexivity|].
  now rewrite box_contains_translate, IH.
Qed.

Lemma box_contains_intersect a b x y :
  box_contains (box_intersect a b) x y =
  box_contains a x y && box_contains b x y.
Proof. unfold box_contains, box_intersect; simpl. bool_lia. Qed.

Lemma contains_intersect_rect r x0 y0 w h x y :
  contains (intersect_rect r x0 y0 w h) x y =
  contains r x y && contains (init_rect x0 y0 w h) x y.
Proof.
  unfold intersect_rect, init_rect, contains.
  induction r as [|b r IH]; simpl; [reflexivity|].
  simpl in IH. rewrite IH, box_contains_intersect, !orb_false_r.
  destruct (box_contains b x y), (box_contains _ x y); simpl;
    try reflexivity; now rewrite ?andb_true_r, ?andb_false_r.
Qed.

Lemma contains_box_subtract a b x y :
  contains (box_subtract a b) x y =
  box_contains a x y && negb (box_contains b x y).
Proof. unfold contains, box_subtract, box_contains; simpl. bool_lia. Qed.

Lemma contains_subtract_box r b x y :
  contains (subtract_box r b) x y =
  contains r x y && negb (box_contains b x y).
Proof.
  unfold subtract_box.
  induction r as [|a r IH]; simpl; [reflexivity|].
  change (contains (box_subtract a b ++ flat_map (fun a => box_subtract a b) r) x y
          = (box_contains a x y || contains r x y) && negb (box_contains b x y)).
  fold (union (box_subtract a b) (flat_map (fun a => box_subtract a b) r)).
  rewrite contains_union, IH, contains_box_subtract.
  now rewrite andb_orb_distrib_l.
Qed.

Lemma contains_subtract a b x y :
  contains (subtract a b) x y = contains a x y && negb (contains b x y).
Proof.
  unfold subtract. revert a.
  induction b as [|c b IH]; intros a; simpl.
  - now rewrite andb_true_r.
  - rewrite IH, contains_subtract_box, negb_orb. now rewrite andb_assoc.
Qed.

Lemma not_empty_spec r :
  not_empty r = true <-> exists x y, contains r x y = true.
Proof.
  unfold not_empty, contains. split.
  - intros H. apply existsb_exists in H. destruct H as [b [Hin Hb]].
    exists (x1 b), (y1 b). apply existsb_exists. exists b. split; [exact Hin|].
    unfold box_not_empty in Hb. unfold box_contains.
    apply andb_true_iff in Hb. destruct Hb as [Hx Hy].
    rewrite Hx, Hy, !Z.leb_refl. reflexivity.
  - intros [x [y H]]. apply existsb_exists in H. destruct H as [b [Hin Hb]].
    apply existsb_exists. exists b. split; [exact Hin|].
    unfold box_contains in Hb. unfold box_not_empty.
    rewrite !andb_true_iff in Hb. destruct Hb as [[[A B] C] D].
    apply andb_true_iff. split; apply Z.ltb_lt;
      apply Z.leb_le in A, C; apply Z.ltb_lt in B, D; lia.
Qed.

Lemma contains_big_union rs x y :
  contains (big_union rs) x y = existsb (fun r => contains r x y) rs.
Proof.
  induction rs as [|r rs IH]; simpl; [reflexivity|].
  now rewrite contains_union, IH.
Qed.

End RegionFacts.

(** ** Update scheduling and flip bookkeeping *)

Module SchedulingFacts.

Import Compositor.

Lemma mask_nonzero o : 0 <= id o < 32 -> SWC_OUTPUT_MASK o <> 0.
Proof.
  intros H. unfold SWC_OUTPUT_MASK, U32.wrap, U32.modulus.
  rewrite Z.shiftl_1_l.
  assert (0 < 2 ^ id o < 2 ^ 32).
  { split; [apply Z.pow_pos_nonneg; lia|].
    apply Z.pow_lt_mono_r; lia. }
  rewrite Z.mod_small; lia.
Qed.

Lemma land_lor_absorb a b : Z.land (Z.lor a b) b = b.
Proof.
  apply Z.bits_inj'. intros n _.
  rewrite Z.land_spec, Z.lor_spec.
  destruct (Z.testbit a n), (Z.testbit b n); reflexivity.
Qed.

(** [calculate_damage] leaves the outputs and both masks alone. *)
Lemma calculate_damage_frame c :
  let c' := fst (calculate_damage c) in
  outputs c' = outputs c
  /\ scheduled_updates c' = scheduled_updates c
  /\ pending_flips c' = pending_flips c
  /\ key_bindings c' = key_bindings c.
Proof.
  unfold calculate_damage.
  destruct (calculate_damage_loop _ _ _) as [[[ss opq] dmg] ev]. simpl. auto.
Qed.

Lemma repaint_output_frame flip c o :
  let c' := fst (fst (repaint_output flip c o)) in
  let o' := snd (fst (repaint_output flip c o)) in
  scheduled_updates c' = scheduled_updates c
  /\ pending_flips c' = pending_flips c
  /\ outputs c' = outputs c
  /\ surfaces c' = surfaces c
  /\ opaque c' = opaque c
  /\ id o' = id o.
Proof. simpl. auto 6. Qed.

Lemma repainted_app a b : repainted (a ++ b) = repainted a ++ repainted b.
Proof. apply flat_map_app. Qed.

Lemma flipped_app a b : flipped (a ++ b) = flipped a ++ flipped b.
Proof. apply flat_map_app. Qed.

Lemma frame_callbacks_app a b :
  frame_callbacks (a ++ b) = frame_callbacks a ++ frame_callbacks b.
Proof. apply flat_map_app. Qed.

Lemma repaint_output_events flip c o :
  let ev := snd (repaint_output flip c o) in
  repainted ev = [id o] /\ flipped ev = [id o] /\ frame_callbacks ev = [].
Proof.
  unfold repaint_output. cbn [snd].
  rewrite repainted_app, flipped_app, frame_callbacks_app.
  destruct (flip (id _)); simpl; auto.
Qed.

(** The loop over the outputs repaints and flips the serviced outputs,
    each once and in list order, changes no other output and neither
    mask. *)
Lemma repaint_outputs_spec flip updates os : forall c,
  let r := repaint_outputs flip updates c os in
  let c' := fst (fst r) in
  let os' := snd (fst r) in
  repainted (snd r) = map id (filter (serviced updates) os)
  /\ flipped (snd r) = map id (filter (serviced updates) os)
  /\ frame_callbacks (snd r) = []
  /\ Forall2 (fun o o' => id o' = id o
                          /\ (serviced updates o = false -> o' = o)) os os'
  /\ scheduled_updates c' = scheduled_updates c
  /\ pending_flips c' = pending_flips c
  /\ surfaces c' = surfaces c.
Proof.
  induction os as [|o os IH]; intros c; cbn zeta.
  - simpl. repeat split; constructor.
  - cbn [repaint_outputs filter].
    assert (S : serviced updates o = negb (Z.land updates (SWC_OUTPUT_MASK o) =? 0))
      by reflexivity.
    destruct (Z.land updates (SWC_OUTPUT_MASK o) =? 0) eqn:E;
      cbn [negb] in S; rewrite S.
    + specialize (IH c). cbn zeta in IH.
      destruct (repaint_outputs flip updates c os) as [[c2 os2] ev2].
      cbn [fst snd app] in *.
      destruct IH as (A & B & C & D & F & G & H).
      repeat split; auto.
    + pose proof (repaint_output_frame flip c o) as Fr.
      pose proof (repaint_output_events flip c o) as Ev.
      destruct (repaint_output flip c o) as [[c1 o1] ev1].
      cbn [fst snd] in Fr, Ev.
      destruct Fr as (F1 & F2 & _ & F4 & _ & F6).
      destruct Ev as (E1 & E2 & E3).
      specialize (IH c1). cbn zeta in IH.
      destruct (repaint_outputs flip updates c1 os) as [[c2 os2] ev2].
      cbn [fst snd] in *.
      destruct IH as (A & B & C & D & F & G & H).
      rewrite repainted_app, flipped_app, frame_callbacks_app.
      rewrite E1, E2, E3, A, B, C. cbn [map app].
      repeat split; try congruence.
      constructor; [|exact D]. split; [exact F6|].
      intros X. rewrite S in X. discriminate X.
Qed.

Lemma calculate_damage_loop_events ss : forall opq dmg,
  let ev := snd (calculate_damage_loop ss opq dmg) in
  repainted ev = [] /\ flipped ev = [] /\ frame_callbacks ev = [].
Proof.
  induction ss as [|s ss IH]; intros opq dmg; cbn zeta.
  - simpl. auto.
  - cbn [calculate_damage_loop].
    destruct (calculate_damage_surface opq dmg s) as [[[s1 opq1] dmg1] ev1] eqn:E1.
    specialize (IH opq1 dmg1). cbn zeta in IH.
    destruct (calculate_damage_loop ss opq1 dmg1) as [[[ss2 opq2] dmg2] ev2].
    cbn [snd] in *.
    rewrite repainted_app, flipped_app, frame_callbacks_app.
    destruct IH as (A & B & C). rewrite A, B, C, !app_nil_r.
    unfold calculate_damage_surface in E1.
    destruct (Region.not_empty _), (border_damaged _);
      (inversion E1; subst; simpl; auto).
Qed.

Lemma calculate_damage_events c :
  let ev := snd (calculate_damage c) in
  repainted ev = [] /\ flipped ev = [] /\ frame_callbacks ev = [].
Proof.
  unfold calculate_damage.
  pose proof (calculate_damage_loop_events (surfaces c) Region.empty (damage c)) as H.
  destruct (calculate_damage_loop _ _ _) as [[[ss opq] dmg] ev]. exact H.
Qed.


Lemma perform_update_frame_callbacks flip c :
  frame_callbacks (snd (perform_update flip c)) = [].
Proof.
  unfold perform_update.
  destruct (_ =? 0); [reflexivity|].
  pose proof (calculate_damage_events c) as Ev.
  destruct (calculate_damage c) as [c1 ev1].
  pose proof (repaint_outputs_spec flip
                (Z.land (scheduled_updates c) (U32.not (pending_flips c)))
                (outputs c1) c1) as L.
  cbn zeta in L.
  destruct (repaint_outputs flip _ c1 (outputs c1)) as [[c2 os2] ev2].
  cbn [fst snd] in *.
  destruct Ev as (_ & _ & E). destruct L as (_ & _ & C & _).
  rewrite !frame_callbacks_app, E, C. reflexivity.
Qed.

(** The frame callbacks of a PAGE_FLIP depend on [pending_flips] after
    the clear alone. *)
Lemma frame_callbacks_of_page_flip flip c o t :
  frame_callbacks (snd (handle_drm_event flip c (SWC_DRM_PAGE_FLIP o t))) =
  if Z.land (pending_flips c) (U32.not (SWC_OUTPUT_MASK o)) =? 0
  then map (fun s => (s, t)) (surfaces c) else [].
Proof.
  unfold handle_drm_event.
  cbn [set_pending_flips pending_flips scheduled_updates surfaces].
  set (p := Z.land (pending_flips c) (U32.not (SWC_OUTPUT_MASK o))).
  set (c1 := set_pending_flips c p).
  assert (Hev : forall ss : list swc_surface,
             frame_callbacks (map (fun s => SendFrameCallbacks s t) ss)
             = map (fun s => (s, t)) ss).
  { induction ss as [|s ss IH]; simpl; [reflexivity|]. f_equal. exact IH. }
  destruct (scheduled_updates c =? 0).
  - cbn [snd]. destruct (p =? 0); [apply Hev | reflexivity].
  - pose proof (perform_update_frame_callbacks flip c1) as P.
    destruct (perform_update flip c1) as [c2 ev2]. cbn [snd] in *.
    rewrite frame_callbacks_app, P, app_nil_r.
    destruct (p =? 0); [apply Hev | reflexivity].
Qed.

(** C2, as amended. On a PAGE_FLIP for output [o] at time [t] the
    frame callbacks sent are: one per surface, in list order, with time
    [t], when [pending_flips] is zero once [o]'s bit is cleared; none
    when it is still non-zero. What [pending_flips] was before the event
    plays no part; when [o]'s flip was pending, as after a flip that
    [perform_update] submitted, this is the transition of
    [pending_flips] from non-zero to zero. *)
Theorem page_flip_frame_callbacks flip c o t :
  let pending' := Z.land (pending_flips c) (U32.not (SWC_OUTPUT_MASK o)) in
  let sent :=
    frame_callbacks (snd (handle_drm_event flip c (SWC_DRM_PAGE_FLIP o t))) in
  sent = (if pending' =? 0 then map (fun s => (s, t)) (surfaces c) else [])
  /\ (Z.land (pending_flips c) (SWC_OUTPUT_MASK o) <> 0 ->
      sent = if negb (pending_flips c =? 0) && (pending' =? 0)
             then map (fun s => (s, t)) (surfaces c) else []).
Proof.
  cbn zeta. split; [apply frame_callbacks_of_page_flip|].
  intros H. rewrite frame_callbacks_of_page_flip.
  assert (N : (pending_flips c =? 0) = false).
  { apply Z.eqb_neq. intros E. apply H. rewrite E. apply Z.land_0_l. }
  now rewrite N.
Qed.

(** C2 on scenario S2: the flip of output 0 is pending; its completion
    at time 42 sends the frame callback to the surface. *)
Lemma page_flip_frame_callbacks_witness :
  Z.land (pending_flips compositor_s1_flipping) (SWC_OUTPUT_MASK output0) <> 0
  /\ frame_callbacks
       (snd (handle_drm_event flip_ok compositor_s1_flipping
                              (SWC_DRM_PAGE_FLIP output0 42)))
     = map (fun s => (s, 42)) (surfaces compositor_s1_flipping).
Proof.
  assert (H : Z.land (pending_flips compositor_s1_flipping)
                     (SWC_OUTPUT_MASK output0) <> 0)
    by (vm_compute; discriminate).
  split; [exact H|].
  exact (proj2 (page_flip_frame_callbacks flip_ok compositor_s1_flipping
                                          output0 42) H).
Defined.

(** C2, as stated, fails: with no flip pending, a PAGE_FLIP still sends
    the frame callbacks, though [pending_flips] makes no transition from
    non-zero to zero. *)
Lemma page_flip_callbacks_without_transition :
  ~ (forall flip c o t,
        let pending' := Z.land (pending_flips c) (U32.not (SWC_OUTPUT_MASK o)) in
        frame_callbacks (snd (handle_drm_event flip c (SWC_DRM_PAGE_FLIP o t))) =
        if negb (pending_flips c =? 0) && (pending' =? 0)
        then map (fun s => (s, t)) (surfaces c) else []).
Proof.
  intros H. specialize (H flip_ok compositor0 output0 42).
  vm_compute in H. discriminate H.
Qed.

Lemma perform_update_repainted flip c :
  let U := Z.land (scheduled_updates c) (U32.not (pending_flips c)) in
  repainted (snd (perform_update flip c)) =
  if U =? 0 then [] else map id (filter (serviced U) (outputs c)).
Proof.
  cbn zeta. unfold perform_update.
  destruct (_ =? 0); [reflexivity|].
  pose proof (calculate_damage_frame c) as Fr.
  pose proof (calculate_damage_events c) as Ev.
  destruct (calculate_damage c) as [c1 ev1]. cbn [fst snd] in *.
  destruct Fr as (Fo & _). destruct Ev as (Er & _). rewrite Fo.
  pose proof (repaint_outputs_spec flip
                (Z.land (scheduled_updates c) (U32.not (pending_flips c)))
                (outputs c) c1) as L.
  cbn zeta in L.
  destruct (repaint_outputs flip _ c1 (outputs c)) as [[c2 os2] ev2].
  cbn [fst snd] in *. destruct L as (A & _).
  rewrite !repainted_app, Er, A. reflexivity.
Qed.

(** C3, as amended. On VT_ENTER the handler calls [swc_drm_set_master]
    and nothing else: the compositor, and with it [scheduled_updates],
    is returned as it was, and the update that follows repaints the
    outputs that were already due, no other. *)
Theorem vt_enter_sets_master_only flip c :
  let r := handle_tty_event c SWC_TTY_VT_ENTER in
  let U := Z.land (scheduled_updates c) (U32.not (pending_flips c)) in
  r = (c, [DrmSetMaster])
  /\ scheduled_updates (fst r) = scheduled_updates c
  /\ repainted (snd (perform_update flip (fst r))) =
     (if U =? 0 then [] else map id (filter (serviced U) (outputs c))).
Proof.
  cbn zeta. cbn [handle_tty_event fst].
  split; [reflexivity|]. split; [reflexivity|].
  apply perform_update_repainted.
Qed.

(** C3, as stated, fails: after VT_ENTER an output is not marked in
    [scheduled_updates]. *)
Lemma vt_enter_schedules_nothing :
  ~ (forall c,
        let r := handle_tty_event c SWC_TTY_VT_ENTER in
        In DrmSetMaster (snd r)
        /\ forall o, In o (outputs (fst r)) ->
                     Z.land (scheduled_updates (fst r)) (SWC_OUTPUT_MASK o) <> 0).
Proof.
  intros H. destruct (H compositor0) as [_ H0].
  apply (H0 output0); [left; reflexivity | reflexivity].
Qed.

Lemma schedule_updates_scheduled os : forall c,
  scheduled_updates c <> 0 ->
  snd (schedule_updates c os) = [].
Proof.
  induction os as [|o os IH]; intros c Hc; [reflexivity|].
  cbn [schedule_updates]. unfold swc_compositor_schedule_update.
  apply Z.eqb_neq in Hc as Hb. rewrite Hb. cbn [negb].
  destruct (Z.land (scheduled_updates c) (SWC_OUTPUT_MASK o) =? 0); cbn [negb].
  - specialize (IH (set_scheduled_updates c
                      (Z.lor (scheduled_updates c) (SWC_OUTPUT_MASK o)))).
    destruct (schedule_updates _ os) as [c2 ev2]. cbn [snd] in *.
    rewrite IH; [reflexivity|].
    cbn [set_scheduled_updates scheduled_updates].
    intros E. apply Z.lor_eq_0_iff in E. tauto.
  - specialize (IH c Hc).
    destruct (schedule_updates c os) as [c2 ev2]. cbn [snd] in *.
    now rewrite IH.
Qed.

(** With at most one idle task waiting, and the scheduled mask
    non-zero while one waits, a step of the loop keeps it so. *)
Lemma run_step_queue flip c q s :
  step_output_ok s ->
  (q <= 1)%nat /\ (q = 1%nat -> scheduled_updates c <> 0) ->
  let st := run_step flip (c, q) s in
  (snd st <= 1)%nat /\ (snd st = 1%nat -> scheduled_updates (fst st) <> 0).
Proof.
  intros Hs [Hq Hsched]. destruct s as [o|]; cbn [run_step].
  - cbn [step_output_ok] in Hs. unfold swc_compositor_schedule_update.
    destruct (Z.land (scheduled_updates c) (SWC_OUTPUT_MASK o) =? 0);
      cbn [negb].
    + destruct (scheduled_updates c =? 0) eqn:Z0; cbn [negb fst snd idle_tasks
        filter List.length set_scheduled_updates scheduled_updates].
      * apply Z.eqb_eq in Z0.
        assert (q = 0%nat) by (destruct q as [|[|q]]; [reflexivity | tauto | lia]).
        subst q. split; [simpl; lia|]. intros _ E.
        apply Z.lor_eq_0_iff in E. destruct E as [_ E].
        now apply (mask_nonzero o Hs).
      * apply Z.eqb_neq in Z0. rewrite Nat.add_0_r. split; [exact Hq|].
        intros _ E. apply Z.lor_eq_0_iff in E. tauto.
    + cbn [fst snd idle_tasks filter List.length]. rewrite Nat.add_0_r.
      split; assumption.
  - destruct q as [|q]; cbn [fst snd]; split; try lia.
Qed.

Lemma run_steps_queue flip steps : forall c q,
  Forall step_output_ok steps ->
  (q <= 1)%nat /\ (q = 1%nat -> scheduled_updates c <> 0) ->
  (snd (run_steps flip (c, q) steps) <= 1)%nat.
Proof.
  unfold run_steps.
  induction steps as [|s steps IH]; intros c q Hok Inv; cbn [fold_left].
  - cbn [snd]. tauto.
  - inversion Hok as [|? ? Hs Hrest]; subst.
    pose proof (run_step_queue flip c q s Hs Inv) as Inv'.
    destruct (run_step flip (c, q) s) as [c' q']. cbn [fst snd] in Inv'.
    apply IH; assumption.
Qed.

(** C6. Scheduling an output twice in a row gives the state and the
    events of scheduling it once, the second call doing nothing; a run
    of schedule calls puts one [perform_update] idle task on the event
    loop when it starts from [scheduled_updates] zero and is not empty,
    and none otherwise: never more than one; and with runs of the idle
    task let in between the calls, but no flip completion, never more
    than one idle task waits on the loop. Output ids are below the mask
    width. *)
Theorem schedule_update_coalesces flip c o os steps :
  0 <= id o < 32 ->
  Forall (fun o' => 0 <= id o' < 32) os ->
  Forall step_output_ok steps ->
  schedule_updates c [o; o] = schedule_updates c [o]
  /\ snd (swc_compositor_schedule_update
            (fst (swc_compositor_schedule_update c o)) o) = []
  /\ idle_tasks (snd (schedule_updates c os)) =
     (if (scheduled_updates c =? 0) && negb (Nat.eqb (List.length os) 0)
      then [AddIdle_perform_update] else [])
  /\ (List.length (idle_tasks (snd (schedule_updates c os))) <= 1)%nat
  /\ (snd (run_steps flip (c, 0%nat) steps) <= 1)%nat.
Proof.
  intros Ho Hos Hsteps.
  assert (Twice : forall c1 ev1,
             swc_compositor_schedule_update c o = (c1, ev1) ->
             swc_compositor_schedule_update c1 o = (c1, [])).
  { intros c1 ev1 E. unfold swc_compositor_schedule_update in *.
    destruct (Z.land (scheduled_updates c) (SWC_OUTPUT_MASK o) =? 0) eqn:B;
      cbn [negb] in E.
    - assert ((Z.land (scheduled_updates c1) (SWC_OUTPUT_MASK o) =? 0) = false) as B1.
      { apply Z.eqb_neq.
        destruct (negb (negb (scheduled_updates c =? 0)));
          inversion E; subst; cbn [set_scheduled_updates scheduled_updates];
          rewrite land_lor_absorb; apply mask_nonzero; exact Ho. }
      rewrite B1. reflexivity.
    - inversion E; subst. rewrite B. reflexivity. }
  assert (Idle : idle_tasks (snd (schedule_updates c os)) =
                 (if (scheduled_updates c =? 0) && negb (Nat.eqb (List.length os) 0)
                  then [AddIdle_perform_update] else [])).
  { destruct os as [|o1 os]; [simpl; now rewrite andb_false_r|].
    cbn [List.length Nat.eqb negb]. rewrite andb_true_r.
    destruct (scheduled_updates c =? 0) eqn:Z0.
    - apply Z.eqb_eq in Z0.
      cbn [schedule_updates]. unfold swc_compositor_schedule_update.
      rewrite Z0, Z.land_0_l. cbn [Z.eqb negb Z.lor].
      set (c1 := set_scheduled_updates c (SWC_OUTPUT_MASK o1)).
      pose proof (schedule_updates_scheduled os c1) as R.
      destruct (schedule_updates c1 os) as [c2 ev2]. cbn [snd] in *.
      rewrite R; [reflexivity|].
      apply mask_nonzero. now inversion Hos.
    - apply Z.eqb_neq in Z0.
      now rewrite schedule_updates_scheduled. }
  split; [|split; [|split; [exact Idle|split]]].
  - cbn [schedule_updates].
    destruct (swc_compositor_schedule_update c o) as [c1 ev1] eqn:E.
    rewrite (Twice c1 ev1 eq_refl). reflexivity.
  - destruct (swc_compositor_schedule_update c o) as [c1 ev1] eqn:E.
    cbn [fst]. now rewrite (Twice c1 ev1 eq_refl).
  - rewrite Idle. destruct (_ && _); simpl; lia.
  - apply run_steps_queue; [exact Hsteps|]. split; [lia|discriminate].
Qed.

(** C6 at work: from the initial compositor, output 0, output 1 and
    output 0 again are scheduled, and one idle task is enqueued; with the
    idle task run in between, one task waits at the end. *)
Lemma schedule_update_coalesces_witness :
  schedule_updates compositor0 [output0; output0]
  = schedule_updates compositor0 [output0]
  /\ snd (swc_compositor_schedule_update
            (fst (swc_compositor_schedule_update compositor0 output0)) output0) = []
  /\ idle_tasks (snd (schedule_updates compositor0 [output0; output1; output0]))
     = [AddIdle_perform_update]
  /\ (List.length (idle_tasks
                     (snd (schedule_updates compositor0 [output0; output1; output0])))
      <= 1)%nat
  /\ (snd (run_steps flip_ok (compositor0, 0%nat)
                     [Schedule output0; Schedule output1; IdleTick;
                      Schedule output0]) <= 1)%nat.
Proof.
  apply (schedule_update_coalesces flip_ok compositor0 output0
           [output0; output1; output0]
           [Schedule output0; Schedule output1; IdleTick; Schedule output0]).
  - simpl; lia.
  - repeat constructor; simpl; lia.
  - repeat constructor; simpl; lia.
Defined.

(** Over such a run the idle task can be enqueued a second time once
    the first has run: the bound is on the tasks waiting, not on those
    enqueued over time. *)
Example schedule_after_idle_enqueues_again :
  snd (swc_compositor_schedule_update compositor_s1_flipping output0)
  = [AddIdle_perform_update].
Proof. reflexivity. Qed.

End SchedulingFacts.

(** ** Damage calculation and per-output repaint *)

Module DamageFacts.

Import Compositor RegionFacts.

Lemma calculate_damage_surface_opaque opq dmg s :
  let r := calculate_damage_surface opq dmg s in
  snd (fst (fst r)) = Region.union opq (surface_opaque s)
  /\ clip (class_state (fst (fst (fst r)))) = opq.
Proof.
  unfold calculate_damage_surface. cbn zeta.
  cbn [set_class_state set_clip state_damage class_state border_damaged].
  destruct (Region.not_empty (state_damage s));
    cbn [set_class_state set_state_damage class_state border_damaged set_clip];
    destruct (border_damaged (class_state s)); cbn; auto.
Qed.

Lemma calculate_damage_loop_length ss : forall opq dmg,
  List.length (fst (fst (fst (calculate_damage_loop ss opq dmg)))) = List.length ss.
Proof.
  induction ss as [|s ss IH]; intros opq dmg; [reflexivity|].
  cbn [calculate_damage_loop].
  destruct (calculate_damage_surface opq dmg s) as [[[s1 opq1] dmg1] ev1].
  specialize (IH opq1 dmg1).
  destruct (calculate_damage_loop ss opq1 dmg1) as [[[ss2 opq2] dmg2] ev2].
  simpl in *. now rewrite IH.
Qed.

(** The opaque region after the loop covers what it covered before and
    what the opaque region of any surface of the list covers. *)
Lemma calculate_damage_loop_opaque ss : forall opq dmg px py,
  Region.contains (snd (fst (fst (calculate_damage_loop ss opq dmg)))) px py =
  Region.contains opq px py
  || existsb (fun s => Region.contains (surface_opaque s) px py) ss.
Proof.
  induction ss as [|s ss IH]; intros opq dmg px py.
  - simpl. now rewrite orb_false_r.
  - cbn [calculate_damage_loop existsb].
    pose proof (calculate_damage_surface_opaque opq dmg s) as [S _].
    destruct (calculate_damage_surface opq dmg s) as [[[s1 opq1] dmg1] ev1].
    cbn [fst snd] in S.
    specialize (IH opq1 dmg1 px py).
    destruct (calculate_damage_loop ss opq1 dmg1) as [[[ss2 opq2] dmg2] ev2].
    cbn [fst snd] in *.
    rewrite IH, S, contains_union. now rewrite orb_assoc.
Qed.

(** The clip of the surface at position [i] covers what the opaque
    region covered before the loop and what the opaque regions of the
    [i] surfaces in front of it cover. *)
Lemma calculate_damage_loop_clip ss : forall opq dmg i s' px py,
  nth_error (fst (fst (fst (calculate_damage_loop ss opq dmg)))) i = Some s' ->
  Region.contains (clip (class_state s')) px py =
  Region.contains opq px py
  || existsb (fun s => Region.contains (surface_opaque s) px py) (firstn i ss).
Proof.
  induction ss as [|s ss IH]; intros opq dmg i s' px py.
  - destruct i; discriminate.
  - cbn [calculate_damage_loop].
    pose proof (calculate_damage_surface_opaque opq dmg s) as [S C].
    destruct (calculate_damage_surface opq dmg s) as [[[s1 opq1] dmg1] ev1].
    cbn [fst snd] in S, C.
    specialize (IH opq1 dmg1).
    destruct (calculate_damage_loop ss opq1 dmg1) as [[[ss2 opq2] dmg2] ev2].
    cbn [fst snd] in *.
    destruct i as [|i]; cbn [nth_error firstn existsb].
    + intros E. inversion E; subst. now rewrite orb_false_r.
    + intros E. rewrite (IH i s' px py E), S, contains_union.
      now rewrite orb_assoc.
Qed.

Lemma existsb_permutation {A} (f : A -> bool) l l' :
  Permutation l l' -> existsb f l = existsb f l'.
Proof.
  induction 1 as [|a l l' _ IH|a b l|l l' l'' _ IH1 _ IH2]; simpl;
    try congruence.
  destruct (f a), (f b); reflexivity.
Qed.

Lemma opaque_after_calculate_damage c px py :
  Region.contains (opaque (fst (calculate_damage c))) px py =
  existsb (fun s => Region.contains (surface_opaque s) px py) (surfaces c).
Proof.
  unfold calculate_damage.
  pose proof (calculate_damage_loop_opaque (surfaces c) Region.empty (damage c) px py) as H.
  destruct (calculate_damage_loop _ _ _) as [[[ss opq] dmg] ev].
  cbn [fst snd set_damage set_opaque opaque] in *. exact H.
Qed.

Lemma contains_union_of_surfaces ss px py :
  Region.contains (Region.big_union (map surface_opaque ss)) px py =
  existsb (fun s => Region.contains (surface_opaque s) px py) ss.
Proof.
  rewrite contains_big_union. induction ss as [|s ss IH]; simpl; congruence.
Qed.

Lemma contains_surface_opaque s px py :
  Region.contains (surface_opaque s) px py = opaque_at px py s.
Proof. unfold surface_opaque, opaque_at. apply contains_translate. Qed.

Lemma existsb_surface_opaque ss px py :
  existsb (fun s => Region.contains (surface_opaque s) px py) ss
  = existsb (opaque_at px py) ss.
Proof.
  induction ss as [|s ss IH]; [reflexivity|].
  cbn [existsb]. now rewrite contains_surface_opaque, IH.
Qed.

(** C5. After [calculate_damage], a point is in [compositor->opaque]
    exactly when, for some surface, the point less the surface's geometry
    origin is in the surface's opaque region: the union of the opaque
    regions translated by their origins; it is the same region for any
    other order of the same surfaces. The surface list keeps its length;
    and a point is in the clip of the surface at position [i] exactly
    when it is so covered by one of the [i] surfaces in front of it, so
    the clip holds no point that none of these covers, whatever the
    surface itself and those behind it cover. *)
Theorem calculate_damage_opaque_clip c :
  let c' := fst (calculate_damage c) in
  (forall px py,
      Region.contains (opaque c') px py = existsb (opaque_at px py) (surfaces c))
  /\ (forall c2, Permutation (surfaces c) (surfaces c2) ->
                 Region.equiv (opaque (fst (calculate_damage c2))) (opaque c'))
  /\ List.length (surfaces c') = List.length (surfaces c)
  /\ (forall i s', nth_error (surfaces c') i = Some s' ->
        (forall px py,
            Region.contains (clip (class_state s')) px py =
            existsb (opaque_at px py) (firstn i (surfaces c)))
        /\ forall px py,
            (forall s, In s (firstn i (surfaces c)) -> opaque_at px py s = false) ->
            Region.contains (clip (class_state s')) px py = false).
Proof.
  cbn zeta. split; [|split; [|split]].
  - intros px py.
    now rewrite opaque_after_calculate_damage, existsb_surface_opaque.
  - intros c2 P px py. rewrite !opaque_after_calculate_damage.
    symmetry. now apply existsb_permutation.
  - unfold calculate_damage.
    pose proof (calculate_damage_loop_length (surfaces c) Region.empty (damage c)) as H.
    destruct (calculate_damage_loop _ _ _) as [[[ss opq] dmg] ev]. exact H.
  - intros i s' E.
    assert (K : forall px py,
               Region.contains (clip (class_state s')) px py =
               existsb (opaque_at px py) (firstn i (surfaces c))).
    { intros px py. unfold calculate_damage in E.
      pose proof (calculate_damage_loop_clip (surfaces c) Region.empty (damage c)
                                             i s' px py) as H.
      destruct (calculate_damage_loop _ _ _) as [[[ss opq] dmg] ev].
      cbn [fst snd set_damage set_opaque set_surfaces surfaces] in *.
      rewrite (H E). apply existsb_surface_opaque. }
    split; [exact K|].
    intros px py H. rewrite K.
    destruct (existsb _ _) eqn:X; [|reflexivity].
    apply existsb_exists in X. destruct X as [s [Hin Hs]].
    rewrite (H s Hin) in Hs. discriminate.
Qed.

(** C5 on two surfaces away from the origin. The point (105, 55), which
    is (5, 5) in the upper surface, and the point (16, 26), which is
    (6, 6) in the lower one, are opaque; (6, 6) itself is not; the other
    order of the surfaces gives the same opaque region; and the clip of
    the lower surface holds (105, 55), covered by the upper surface, but
    not (16, 26), which only the lower surface itself covers. *)
Lemma calculate_damage_opaque_clip_witness :
  let c' := fst (calculate_damage compositor_offset) in
  Region.contains (opaque c') 105 55 = true
  /\ Region.contains (opaque c') 16 26 = true
  /\ Region.contains (opaque c') 6 6 = false
  /\ Region.equiv (opaque (fst (calculate_damage compositor_offset_swapped)))
                  (opaque c')
  /\ match nth_error (surfaces c') 1 with
     | Some s' => Region.contains (clip (class_state s')) 105 55 = true
                  /\ Region.contains (clip (class_state s')) 16 26 = false
     | None => False
     end.
Proof.
  destruct (calculate_damage_opaque_clip compositor_offset) as (A & B & _ & D).
  split; [rewrite A; reflexivity|].
  split; [rewrite A; reflexivity|].
  split; [rewrite A; reflexivity|].
  split; [apply (B compositor_offset_swapped); apply perm_swap|].
  destruct (nth_error (surfaces (fst (calculate_damage compositor_offset))) 1)
    as [s'|] eqn:E.
  - destruct (D 1%nat s' E) as [K _]. split; rewrite K; reflexivity.
  - discriminate E.
Defined.

(** C4. [repaint_output] leaves in the output's [previous_damage] the
    damage of the new frame, that is [compositor->damage] cut to the
    output's geometry, and not the total handed to the renderer, which
    also has the previous frame's damage; and it takes that total out of
    [compositor->damage]. *)
Theorem repaint_output_damage flip c o :
  let r := repaint_output flip c o in
  let c' := fst (fst r) in
  let o' := snd (fst r) in
  let g := output_geometry o in
  let frame := Region.intersect_rect (damage c) (x g) (y g) (width g) (height g) in
  let total := Region.union frame (previous_damage o) in
  previous_damage o' = frame
  /\ damage c' = Region.subtract (damage c) total
  /\ In (RendererRepaint total (Region.subtract total (opaque c)) (surfaces c))
        (snd r)
  /\ (forall px py,
         Region.contains (previous_damage o') px py =
         Region.contains (damage c) px py && in_rectangle g px py)
  /\ (forall px py,
         Region.contains (damage c') px py =
         Region.contains (damage c) px py
         && negb (in_rectangle g px py)
         && negb (Region.contains (previous_damage o) px py)).
Proof.
  cbn zeta. unfold repaint_output.
  cbn [fst snd set_previous_damage set_damage previous_damage damage id].
  split; [reflexivity|]. split; [reflexivity|]. split; [right; left; reflexivity|].
  split; intros px py.
  - now rewrite contains_intersect_rect, contains_init_rect.
  - rewrite contains_subtract, contains_union, contains_intersect_rect,
      contains_init_rect.
    unfold in_rectangle.
    destruct (Region.contains (damage c) px py),
             (Region.contains (previous_damage o) px py),
             ((x (output_geometry o) <=? px) && (px <? x (output_geometry o) + width (output_geometry o))
              && (y (output_geometry o) <=? py) && (py <? y (output_geometry o) + height (output_geometry o)));
      reflexivity.
Qed.

(** Scenario S1: after the idle task, output 0 was flipped once and is
    pending, its previous damage is the surface's rectangle, and no
    damage is left. *)
Example scenario_s1 :
  let r := perform_update flip_ok compositor_s1_scheduled in
  flipped (snd r) = [0]
  /\ pending_flips (fst r) = 1
  /\ scheduled_updates (fst r) = 0
  /\ map previous_damage (outputs (fst r))
     = [Region.init_rect 100 100 200 150; Region.empty]
  /\ Region.not_empty (damage (fst r)) = false.
Proof. repeat split. Qed.

(** Scenario S3: nothing clips the upper surface, the upper surface's
    opaque rectangle clips the lower one, and once repainted nothing of
    the damage lies outside the opaque region. *)
Example scenario_s3 :
  let c := fst (calculate_damage compositor_s3) in
  map (fun s => clip (class_state s)) (surfaces c)
  = [Region.empty; Region.init_rect 0 0 100 100]
  /\ opaque c = Region.init_rect 0 0 100 100
  /\ damage c = Region.init_rect 0 0 100 100
  /\ existsb (fun e => match e with
                       | RendererRepaint _ base _ => Region.not_empty base
                       | _ => false
                       end)
             (snd (repaint_output flip_ok c output0)) = false.
Proof. repeat split. Qed.

(** Where the lower surface is opaque too, its clip and its own opaque
    region share the points the upper surface covers: the clip is made
    of the surfaces in front only, it is not cut by what lies under
    them. *)
Example clip_over_own_opaque_region :
  let c := fst (calculate_damage
                  (set_surfaces compositor_s3 [surface_a; surface_b_opaque])) in
  match nth_error (surfaces c) 1 with
  | Some s => Region.contains (clip (class_state s)) 0 0
              && Region.contains (surface_opaque s) 0 0
  | None => false
  end = true.
Proof. reflexivity. Qed.

End DamageFacts.

(** ** Key bindings *)

Module BindingFacts.

Import Compositor.

Section Matching.

Variables SWC_MOD_CTRL SWC_MOD_ALT SWC_MOD_LOGO SWC_MOD_SHIFT SWC_MOD_ANY : Z.

Local Abbreviation key_modifiers' :=
  (key_modifiers SWC_MOD_CTRL SWC_MOD_ALT SWC_MOD_LOGO SWC_MOD_SHIFT).
Local Abbreviation scan_bindings' :=
  (scan_bindings SWC_MOD_CTRL SWC_MOD_ALT SWC_MOD_LOGO SWC_MOD_SHIFT SWC_MOD_ANY).
Local Abbreviation handle_key' :=
  (handle_key SWC_MOD_CTRL SWC_MOD_ALT SWC_MOD_LOGO SWC_MOD_SHIFT SWC_MOD_ANY).

(** The scan of the code stops at the first binding that matches in the
    words of the specification. *)
Lemma scan_bindings_find xkb time key keysym bs :
  scan_bindings' xkb time key keysym bs =
  match find (binding_matches SWC_MOD_ANY keysym (key_modifiers' xkb key)) bs with
  | Some b => Some [BindingHandler (handler b) time keysym (data b);
                    Stdout "-> handled"]
  | None => None
  end.
Proof.
  induction bs as [|b bs IH]; [reflexivity|].
  cbn [scan_bindings find]. unfold binding_matches at 1.
  destruct (value b =? keysym); cbn [andb]; [|exact IH].
  destruct ((modifiers b =? SWC_MOD_ANY) || (modifiers b =? _)); [reflexivity|exact IH].
Qed.

(** The test of the code on a modifier index, [mod_mask & (1 << index)],
    is the test of the bit [index] of the mask. *)
Lemma land_shiftl_testbit mod_mask index :
  (Z.land mod_mask (Z.shiftl 1 index) =? 0) = negb (Z.testbit mod_mask index).
Proof.
  rewrite Z.shiftl_1_l.
  destruct (Z_lt_le_dec index 0) as [N|P].
  - rewrite Z.pow_neg_r, Z.land_0_r, Z.testbit_neg_r by exact N. reflexivity.
  - destruct (Z.testbit mod_mask index) eqn:T; cbn [negb].
    + apply Z.eqb_neq. intros E.
      assert (B : Z.testbit (Z.land mod_mask (2 ^ index)) index = true)
        by (rewrite Z.land_spec, T, Z.pow2_bits_true by exact P; reflexivity).
      rewrite E, Z.bits_0 in B. discriminate.
    + apply Z.eqb_eq. apply Z.bits_inj'. intros n Hn.
      rewrite Z.land_spec, Z.pow2_bits_eqb, Z.bits_0 by exact P.
      destruct (Z.eqb_spec index n) as [E|]; [subst n; now rewrite T|].
      apply andb_false_r.
Qed.

(** The modifiers the code computes for a key are the effective
    modifiers in the words of the specification. *)
Lemma key_modifiers_effective xkb key :
  key_modifiers' xkb key =
  effective_modifiers SWC_MOD_CTRL SWC_MOD_ALT SWC_MOD_LOGO SWC_MOD_SHIFT xkb key.
Proof.
  unfold key_modifiers, effective_modifiers, flags_of_mask, modifier_table,
    add_modifier.
  cbn [filter map fst snd]. rewrite !land_shiftl_testbit.
  set (mod_mask := xkb_state_mod_mask_remove_consumed _ _ _).
  destruct (Z.testbit mod_mask (ctrl (indices xkb))),
           (Z.testbit mod_mask (alt (indices xkb))),
           (Z.testbit mod_mask (super (indices xkb))),
           (Z.testbit mod_mask (shift (indices xkb))); reflexivity.
Qed.

(** C7. For a pressed key, let [keysym] be the XKB keysym of the key,
    [mod_mask] the serialized effective modifier mask with the modifiers
    the key consumes removed by [xkb_state_mod_mask_remove_consumed],
    and [effective] the flags, among Control, Alt, Logo and Shift, whose
    XKB index is a bit of [mod_mask]. The first binding of the sequence
    whose value is the keysym and whose modifiers are the sentinel or
    [effective] has its handler called with the time, the keysym and its
    user data, and [handle_key] returns true; when no binding is such,
    no handler is called and [handle_key] returns false. *)
Theorem handle_key_first_match c time key :
  let xkb := seat_xkb c in
  let keysym := xkb_state_key_get_one_sym (state xkb) (key + 8) in
  let mod_mask :=
    xkb_state_mod_mask_remove_consumed
      (state xkb) (key + 8) (xkb_state_serialize_mods_effective (state xkb)) in
  let effective :=
    flags_of_mask
      (modifier_table SWC_MOD_CTRL SWC_MOD_ALT SWC_MOD_LOGO SWC_MOD_SHIFT
                      (indices xkb))
      mod_mask in
  handle_key' c time key WL_KEYBOARD_KEY_STATE_PRESSED =
  match find (binding_matches SWC_MOD_ANY keysym effective) (key_bindings c) with
  | Some b => (true, [BindingHandler (handler b) time keysym (data b);
                      Stdout "-> handled"])
  | None => (false, [])
  end.
Proof.
  cbn zeta. unfold handle_key.
  rewrite Z.eqb_refl, scan_bindings_find, key_modifiers_effective.
  unfold effective_modifiers.
  destruct (find _ _); reflexivity.
Qed.

(** A key that is not pressed is never swallowed. *)
Lemma handle_key_not_pressed c time key key_state :
  key_state <> WL_KEYBOARD_KEY_STATE_PRESSED ->
  handle_key' c time key key_state = (false, []).
Proof.
  intros H. unfold handle_key.
  apply Z.eqb_neq in H. now rewrite H.
Qed.

End Matching.

(** C7 on scenario S4: Shift and Control are effective and the key
    consumes Shift, so the mask left is Control's bit and the flags are
    Control alone; the binding on Shift, first in the sequence, does not
    match, the first binding on Control does, and the second one on
    Control is not called. *)
Lemma handle_key_first_match_witness :
  xkb_state_mod_mask_remove_consumed
    (state xkb_s4) (30 + 8) (xkb_state_serialize_mods_effective (state xkb_s4))
  = 4
  /\ flags_of_mask (modifier_table 1 2 4 8 (indices xkb_s4)) 4 = 1
  /\ handle_key 1 2 4 8 4294967295 compositor_s4 7 30
                WL_KEYBOARD_KEY_STATE_PRESSED
     = (true, [BindingHandler 100 7 65 10; Stdout "-> handled"]).
Proof.
  split; [reflexivity|]. split; [reflexivity|].
  rewrite (handle_key_first_match 1 2 4 8 4294967295 compositor_s4 7 30).
  reflexivity.
Defined.

(** Scenario S4: with Shift consumed, the binding on Control alone is
    the first to match; the Shift binding before it does not. *)
Example handle_key_consumed_shift :
  handle_key 1 2 4 8 4294967295 compositor_s4 7 30 WL_KEYBOARD_KEY_STATE_PRESSED
  = (true, [BindingHandler 100 7 65 10; Stdout "-> handled"]).
Proof. reflexivity. Qed.

End BindingFacts.

(** ** The evdev event pump *)

Module EvdevFacts.

Import Evdev.

(** An [int32_t] read of 32 bits differs from the integer they came from
    by a multiple of [2^32]. *)
Lemma signed_congruent z : exists k, U32.signed z = z + k * U32.modulus.
Proof.
  unfold U32.signed, U32.wrap, U32.modulus.
  pose proof (Z.div_mod z (2 ^ 32) ltac:(lia)) as D.
  destruct (z mod 2 ^ 32 <? 2 ^ 31).
  - exists (- (z / 2 ^ 32)). lia.
  - exists (- (z / 2 ^ 32) - 1). lia.
Qed.

Lemma wrap_mul_signed a z : U32.wrap (a * U32.signed z) = U32.wrap (a * z).
Proof.
  destruct (signed_congruent z) as [k Hk]. rewrite Hk.
  unfold U32.wrap.
  replace (a * (z + k * U32.modulus)) with (a * z + (a * k) * U32.modulus) by ring.
  apply Z_mod_plus_full.
Qed.

Lemma signed_wrap_small z :
  - 2 ^ 31 <= z < 2 ^ 31 -> U32.signed (U32.wrap z) = z.
Proof.
  intros H. unfold U32.signed, U32.wrap, U32.modulus.
  rewrite Z.mod_mod by lia.
  destruct (Z_lt_le_dec z 0) as [N|P].
  - assert (E : z mod 2 ^ 32 = z + 2 ^ 32).
    { symmetry. apply (Z.mod_unique_pos _ _ (-1)); lia. }
    rewrite E. destruct (Z.ltb_spec (z + 2 ^ 32) (2 ^ 31)); lia.
  - rewrite Z.mod_small by lia.
    destruct (Z.ltb_spec z (2 ^ 31)); lia.
Qed.

(** An event the table sends to [handle_rel_event], and that is not a
    motion event, first flushes the pending motion at its own time. *)
Lemma handle_event_rel dev e :
  type e = EV_REL -> code e <> REL_X -> code e <> REL_Y ->
  handle_event dev e =
  let '(dev1, cb) :=
    handle_motion_events dev (Some (timeval_to_msec (time e))) in
  let '(dev2, cb') := handle_rel_event dev1 e in
  (dev2, cb ++ cb').
Proof.
  intros T X Y. unfold handle_event, is_motion_event.
  rewrite T. apply Z.eqb_neq in X, Y. rewrite X, Y. reflexivity.
Qed.

(** C8. A REL_WHEEL event of value [v] at time [(sec, usec)] makes one
    call of the axis handler: the time is [sec * 1000 + usec / 1000] as a
    32-bit counter, the axis is the vertical scroll, and the amount is
    the 32 bits of [-10 * 256 * v]; REL_HWHEEL gives the horizontal
    scroll and the 32 bits of [10 * 256 * v]. Read as 24.8 fixed point
    the amounts are [-10 * 256 * v] and [10 * 256 * v] themselves as long
    as these fit 32 signed bits, and the time is the sum itself as long
    as it fits the counter. *)
Theorem rel_wheel_axis dev sec usec ty v :
  let e code := InputEvent (Timeval sec usec) ty code v in
  let msec := U32.wrap (sec * 1000 + Z.quot usec 1000) in
  handle_rel_event dev (e REL_WHEEL) =
    (dev, [Axis msec (Some WL_POINTER_AXIS_VERTICAL_SCROLL)
                (Some (U32.wrap (- 10 * 256 * v)))])
  /\ handle_rel_event dev (e REL_HWHEEL) =
    (dev, [Axis msec (Some WL_POINTER_AXIS_HORIZONTAL_SCROLL)
                (Some (U32.wrap (10 * 256 * v)))])
  /\ (- 838860 <= v <= 838860 ->
      U32.signed (U32.wrap (- 10 * 256 * v)) = - 10 * 256 * v
      /\ U32.signed (U32.wrap (10 * 256 * v)) = 10 * 256 * v)
  /\ (0 <= sec -> 0 <= usec -> sec * 1000 + usec / 1000 < 2 ^ 32 ->
      msec = sec * 1000 + usec / 1000).
Proof.
  cbn zeta. split; [|split; [|split]].
  - unfold handle_rel_event, timeval_to_msec, wl_fixed_from_int, AXIS_STEP_DISTANCE.
    cbn [code value time tv_sec tv_usec Z.eqb Pos.eqb REL_WHEEL REL_X REL_Y].
    rewrite wrap_mul_signed.
    replace (- (10) * (v * 256)) with (- 10 * 256 * v) by ring. reflexivity.
  - unfold handle_rel_event, timeval_to_msec, wl_fixed_from_int, AXIS_STEP_DISTANCE.
    cbn [code value time tv_sec tv_usec Z.eqb Pos.eqb REL_HWHEEL REL_WHEEL REL_X REL_Y].
    rewrite wrap_mul_signed.
    replace (10 * (v * 256)) with (10 * 256 * v) by ring. reflexivity.
  - intros H. split; apply signed_wrap_small; lia.
  - intros Hs Hu Hlt. unfold U32.wrap, U32.modulus.
    rewrite Z.quot_div_nonneg by lia.
    apply Z.mod_small. split; [|exact Hlt].
    pose proof (Z.div_pos usec 1000 Hu ltac:(lia)). lia.
Qed.

(** C8 on scenario S6: value +1 at time (1, 500000) calls the axis
    handler at time 1500 on the vertical axis with the 32 bits of
    -2560. *)
Lemma rel_wheel_axis_witness :
  handle_rel_event (new_device 0)
                   (InputEvent (Timeval 1 500000) EV_REL REL_WHEEL 1)
  = (new_device 0, [Axis 1500 (Some WL_POINTER_AXIS_VERTICAL_SCROLL)
                         (Some 4294964736)])
  /\ U32.signed 4294964736 = - 2560
  /\ U32.wrap (1 * 1000 + Z.quot 500000 1000) = 1500.
Proof.
  destruct (rel_wheel_axis (new_device 0) 1 500000 EV_REL 1) as (A & _ & C & D).
  split; [exact A|]. split.
  - apply (proj1 (C ltac:(lia))).
  - apply D; [lia | lia | reflexivity].
Defined.

(** C10 fails on the code: a relative event whose code is not one of
    the four cases, here REL_Z and REL_DIAL, falls out of the [switch]
    and the axis handler is called with [axis] and [amount] never
    assigned; the event table delivers such an event to
    [handle_rel_event]. *)
Theorem rel_other_code_axis_unassigned dev t v :
  handle_rel_event dev (InputEvent t EV_REL REL_Z v)
  = (dev, [Axis (timeval_to_msec t) None None])
  /\ handle_rel_event dev (InputEvent t EV_REL REL_DIAL v)
  = (dev, [Axis (timeval_to_msec t) None None])
  /\ handle_event (new_device 0) (InputEvent t EV_REL REL_Z v)
  = (new_device 0, [Axis (timeval_to_msec t) None None]).
Proof. repeat split. Qed.

(** What the code does hold: REL_X and REL_Y only accumulate and call
    nothing. *)
Lemma rel_motion_accumulates dev t v :
  handle_rel_event dev (InputEvent t EV_REL REL_X v)
  = (set_motion_rel dev (RelMotion (U32.signed (dx (motion_rel dev) + v))
                                   (dy (motion_rel dev)) true), [])
  /\ handle_rel_event dev (InputEvent t EV_REL REL_Y v)
  = (set_motion_rel dev (RelMotion (dx (motion_rel dev))
                                   (U32.signed (dy (motion_rel dev) + v)) true), []).
Proof. split; reflexivity. Qed.

Lemma handle_motion_events_pending dev time :
  pending (motion_rel (fst (handle_motion_events dev time))) = false.
Proof.
  unfold handle_motion_events.
  destruct (pending (motion_rel dev)) eqn:P; [reflexivity | exact P].
Qed.

(** No motion is pending when [handle_data] returns, so none is when it
    is next entered. *)
Lemma handle_data_pending dev calls :
  pending (motion_rel (fst (fst (handle_data dev calls)))) = false.
Proof.
  unfold handle_data.
  destruct (read_loop calls (OuterRead None) dev) as [[[d cb] ev] rest].
  pose proof (handle_motion_events_pending d (handle_data_flush_time dev calls)) as H.
  destruct (handle_motion_events d _) as [d' cb']. exact H.
Qed.

(** Once [event] was written the loop leaves it written. *)
Lemma read_loop_event_written calls : forall pt dev,
  pt <> OuterRead None ->
  snd (fst (read_loop calls pt dev)) <> None.
Proof.
  induction calls as [|r calls IH]; intros pt dev Hpt.
  - destruct pt as [[e|]|e]; cbn [read_loop].
    + discriminate.
    + congruence.
    + destruct (handle_event dev e). discriminate.
  - assert (Step : forall e d,
               snd (fst (let '(device, cb', event', rest') :=
                           read_loop calls (OuterRead (Some e)) d in
                         (device, (@nil callback) ++ cb', event', rest'))) <> None).
    { intros e d. specialize (IH (OuterRead (Some e)) d ltac:(discriminate)).
      destruct (read_loop calls (OuterRead (Some e)) d) as [[[d1 c1] e1] r1].
      exact IH. }
    assert (Step' : forall e d (cb : list callback),
               snd (fst (let '(device, cb', event', rest') :=
                           read_loop calls (OuterRead (Some e)) d in
                         (device, cb ++ cb', event', rest'))) <> None).
    { intros e d cb. specialize (IH (OuterRead (Some e)) d ltac:(discriminate)).
      destruct (read_loop calls (OuterRead (Some e)) d) as [[[d1 c1] e1] r1].
      exact IH. }
    destruct r as [|ret e]; cbn [read_loop].
    + destruct pt as [[e0|]|e0].
      * discriminate.
      * congruence.
      * destruct (handle_event dev e0). apply Step'.
    + destruct (ret =? - EAGAIN).
      * destruct pt as [ev|e0]; [discriminate|].
        destruct (handle_event dev e). apply Step'.
      * destruct (ret =? LIBEVDEV_READ_STATUS_SYNC).
        -- apply IH. discriminate.
        -- destruct (handle_event dev e). apply Step'.
Qed.

(** When the first call reads an event, the time of the trailing flush
    is that of an event that was read. *)
Lemma handle_data_flush_time_read dev ret e calls :
  handle_data_flush_time dev (Read ret e :: calls) <> None.
Proof.
  unfold handle_data_flush_time.
  assert (H : snd (fst (read_loop (Read ret e :: calls) (OuterRead None) dev)) <> None).
  { cbn [read_loop].
    destruct (ret =? - EAGAIN); [discriminate|].
    destruct (ret =? LIBEVDEV_READ_STATUS_SYNC).
    - apply read_loop_event_written. discriminate.
    - destruct (handle_event dev e) as [d cb].
      pose proof (read_loop_event_written calls (OuterRead (Some e)) d
                                          ltac:(discriminate)) as K.
      destruct (read_loop calls (OuterRead (Some e)) d) as [[[d1 c1] e1] r1].
      exact K. }
  destruct (read_loop _ _ _) as [[[d cb] ev] rest]. cbn [fst snd] in H.
  destruct ev; [discriminate | congruence].
Qed.

(** C9 fails on the code: when the first call of [libevdev_next_event]
    returns [-EAGAIN], the time handed to the trailing flush is computed
    from an [event] that was never written; were a motion pending then,
    it would be reported with that time. *)
Theorem handle_data_no_event_flush_time dev rest caps mx my :
  handle_data_flush_time dev [] = None
  /\ handle_data_flush_time dev (Again :: rest) = None
  /\ handle_data (Device caps (RelMotion mx my true)) []
     = (Device caps (RelMotion 0 0 false),
        [RelativeMotion None (wl_fixed_from_int mx) (wl_fixed_from_int my)], []).
Proof. repeat split. Qed.

(** A drained queue between two events: the motion read is flushed at
    the time of the last event read. *)
Example handle_data_motion_then_again :
  handle_data (new_device 0)
              [Read 0 (InputEvent (Timeval 2 0) EV_REL REL_X 3);
               Read 0 (InputEvent (Timeval 2 5000) EV_REL REL_Y (-1))]
  = (new_device 0, [RelativeMotion (Some 2005) 768 (-256)], []).
Proof. reflexivity. Qed.

End EvdevFacts.

(** ** More on the frame pipeline *)

Module PipelineFacts.

Import Compositor RegionFacts SchedulingFacts.

Lemma testbit_not32 x n :
  0 <= n -> Z.testbit (U32.not x) n = negb (Z.testbit x n) && (n <? 32).
Proof.
  intros H. unfold U32.not. change U32.max with (Z.ones 32).
  rewrite Z.land_spec, Z.lnot_spec by exact H.
  rewrite Z.testbit_ones_nonneg by lia. reflexivity.
Qed.

(** Once [U = s & ~p] moved from [s] to [p], nothing of [s] is outside
    [p]. *)
Lemma settle_bits s p :
  let U := Z.land s (U32.not p) in
  Z.land (Z.land s (U32.not U)) (U32.not (Z.lor p U)) = 0.
Proof.
  cbn zeta. apply Z.bits_inj'. intros n Hn.
  rewrite !Z.land_spec, !testbit_not32, Z.lor_spec, Z.land_spec,
    testbit_not32, Z.bits_0 by exact Hn.
  destruct (Z.testbit s n), (Z.testbit p n), (n <? 32); reflexivity.
Qed.

Lemma in_range_high_bits s n :
  U32.in_range s -> 32 <= n -> Z.testbit s n = false.
Proof.
  unfold U32.in_range, U32.modulus. intros H Hn.
  rewrite <- (Z.mod_small s (2 ^ 32)) by lia.
  apply Z.mod_pow2_bits_high. lia.
Qed.

Lemma perform_update_masks flip c :
  let U := Z.land (scheduled_updates c) (U32.not (pending_flips c)) in
  let c' := fst (perform_update flip c) in
  pending_flips c' = (if U =? 0 then pending_flips c
                      else Z.lor (pending_flips c) U)
  /\ scheduled_updates c' = (if U =? 0 then scheduled_updates c
                             else Z.land (scheduled_updates c) (U32.not U)).
Proof.
  cbn zeta. unfold perform_update.
  destruct (Z.land (scheduled_updates c) (U32.not (pending_flips c)) =? 0).
  - split; reflexivity.
  - pose proof (calculate_damage_frame c) as Fr.
    destruct (calculate_damage c) as [c1 ev1]. cbn [fst snd] in *.
    destruct Fr as (_ & Fs & Fp & _).
    pose proof (repaint_outputs_spec flip
                  (Z.land (scheduled_updates c) (U32.not (pending_flips c)))
                  (outputs c1) c1) as L.
    cbn zeta in L.
    destruct (repaint_outputs flip _ c1 (outputs c1)) as [[c2 os2] ev2].
    cbn [fst snd] in *.
    destruct L as (_ & _ & _ & _ & F & G & _).
    simpl. split; congruence.
Qed.

Lemma perform_update_none_left flip c :
  let c' := fst (perform_update flip c) in
  Z.land (scheduled_updates c') (U32.not (pending_flips c')) = 0.
Proof.
  cbn zeta. destruct (perform_update_masks flip c) as [P S]. rewrite P, S.
  destruct (Z.land (scheduled_updates c) (U32.not (pending_flips c)) =? 0) eqn:U0.
  - now apply Z.eqb_eq.
  - apply settle_bits.
Qed.

(** X1. After [perform_update] no scheduled output is without a pending
    flip, so running it again at once changes nothing and calls
    nothing. *)
Theorem perform_update_settles flip flip' c :
  let c' := fst (perform_update flip c) in
  Z.land (scheduled_updates c') (U32.not (pending_flips c')) = 0
  /\ perform_update flip' c' = (c', []).
Proof.
  cbn zeta. pose proof (perform_update_none_left flip c) as E. cbn zeta in E.
  split; [exact E|].
  unfold perform_update at 1. rewrite E. reflexivity.
Qed.

(** X2. With [scheduled_updates] inside 32 bits, the outputs left scheduled
    by [perform_update] are those whose flip was pending before it, and
    no output that was scheduled or pending is forgotten. *)
Theorem perform_update_keeps_blocked flip c :
  U32.in_range (scheduled_updates c) ->
  let c' := fst (perform_update flip c) in
  scheduled_updates c' = Z.land (scheduled_updates c) (pending_flips c)
  /\ Z.lor (scheduled_updates c') (pending_flips c')
     = Z.lor (scheduled_updates c) (pending_flips c).
Proof.
  intros R. cbn zeta.
  destruct (perform_update_masks flip c) as [P S]. rewrite P, S.
  set (s := scheduled_updates c) in *. set (p := pending_flips c).
  assert (High : forall n, 0 <= n -> (n <? 32) = false -> Z.testbit s n = false).
  { intros n _ Hn. apply in_range_high_bits; [exact R|].
    apply Z.ltb_ge in Hn. exact Hn. }
  destruct (Z.land s (U32.not p) =? 0) eqn:U0.
  - apply Z.eqb_eq in U0.
    assert (Sub : forall n, 0 <= n -> Z.testbit s n = true -> Z.testbit p n = true).
    { intros n Hn Hs.
      assert (B : Z.testbit (Z.land s (U32.not p)) n = false)
        by (rewrite U0; apply Z.bits_0).
      rewrite Z.land_spec, testbit_not32, Hs in B by exact Hn.
      destruct (n <? 32) eqn:L.
      - destruct (Z.testbit p n); [reflexivity | discriminate].
      - rewrite (High n Hn L) in Hs. discriminate. }
    split; [|reflexivity].
    apply Z.bits_inj'. intros n Hn. rewrite Z.land_spec.
    destruct (Z.testbit s n) eqn:Hs; [|reflexivity].
    now rewrite (Sub n Hn Hs).
  - split; apply Z.bits_inj'; intros n Hn;
      rewrite ?Z.lor_spec, ?Z.land_spec, ?testbit_not32, ?Z.land_spec,
        ?testbit_not32 by exact Hn;
      pose proof (High n Hn) as Hi;
      destruct (Z.testbit s n), (Z.testbit p n), (n <? 32);
      try reflexivity; discriminate (Hi eq_refl).
Qed.

(** X2 on scenario S1: output 0 scheduled, nothing pending. *)
Lemma perform_update_keeps_blocked_witness :
  let c' := fst (perform_update flip_ok compositor_s1_scheduled) in
  scheduled_updates c' = 0
  /\ Z.lor (scheduled_updates c') (pending_flips c') = 1.
Proof.
  apply (perform_update_keeps_blocked flip_ok compositor_s1_scheduled).
  unfold U32.in_range. vm_compute. split; [discriminate | reflexivity].
Defined.

(** X3. After a PAGE_FLIP was handled, the bit of every output still in
    [scheduled_updates] is in [pending_flips], so a [perform_update]
    called at once would return the state as it is and call nothing.
    (The pending bit stands for a flip that was asked for, whether or
    not it was submitted.) *)
Theorem page_flip_settles flip flip' c o t :
  let c' := fst (handle_drm_event flip c (SWC_DRM_PAGE_FLIP o t)) in
  Z.land (scheduled_updates c') (U32.not (pending_flips c')) = 0
  /\ perform_update flip' c' = (c', []).
Proof.
  cbn zeta.
  assert (E : Z.land
                (scheduled_updates
                   (fst (handle_drm_event flip c (SWC_DRM_PAGE_FLIP o t))))
                (U32.not
                   (pending_flips
                      (fst (handle_drm_event flip c (SWC_DRM_PAGE_FLIP o t)))))
              = 0).
  { unfold handle_drm_event.
    set (c1 := set_pending_flips c _).
    change (scheduled_updates c) with (scheduled_updates c1).
    destruct (scheduled_updates c1 =? 0) eqn:Z0.
    - cbn [fst]. apply Z.eqb_eq in Z0. rewrite Z0. apply Z.land_0_l.
    - pose proof (perform_update_none_left flip c1) as E.
      destruct (perform_update flip c1) as [c2 ev2]. exact E. }
  split; [exact E|].
  unfold perform_update at 1. rewrite E. reflexivity.
Qed.

Lemma repaint_outputs_state flip flip' updates os : forall c,
  fst (repaint_outputs flip updates c os)
  = fst (repaint_outputs flip' updates c os).
Proof.
  induction os as [|o os IH]; intros c; [reflexivity|].
  cbn [repaint_outputs].
  destruct (Z.land updates (SWC_OUTPUT_MASK o) =? 0).
  - specialize (IH c).
    destruct (repaint_outputs flip updates c os) as [[c2 os2] ev2].
    destruct (repaint_outputs flip' updates c os) as [[c2' os2'] ev2'].
    cbn [fst] in *. congruence.
  - assert (E : fst (repaint_output flip c o) = fst (repaint_output flip' c o))
      by reflexivity.
    destruct (repaint_output flip c o) as [[c1 o1] ev1].
    destruct (repaint_output flip' c o) as [[c1' o1'] ev1'].
    cbn [fst] in E. inversion E; subst c1' o1'.
    specialize (IH c1).
    destruct (repaint_outputs flip updates c1 os) as [[c2 os2] ev2].
    destruct (repaint_outputs flip' updates c1 os) as [[c2' os2'] ev2'].
    cbn [fst] in *. congruence.
Qed.

(** X4. A failed plane flip is logged and changes nothing else: the state
    [perform_update] leaves, the outputs it repaints and the flips it
    asks for are the same whether the flips succeed or fail; the bit of
    an output whose flip failed is pending all the same. *)
Theorem perform_update_ignores_flip_failure flip flip' c :
  fst (perform_update flip c) = fst (perform_update flip' c)
  /\ repainted (snd (perform_update flip c))
     = repainted (snd (perform_update flip' c))
  /\ flipped (snd (perform_update flip c))
     = flipped (snd (perform_update flip' c)).
Proof.
  split.
  - unfold perform_update.
    destruct (_ =? 0); [reflexivity|].
    destruct (calculate_damage c) as [c1 ev1].
    pose proof (repaint_outputs_state flip flip'
                  (Z.land (scheduled_updates c) (U32.not (pending_flips c)))
                  (outputs c1) c1) as E.
    destruct (repaint_outputs flip _ c1 (outputs c1)) as [[c2 os2] ev2].
    destruct (repaint_outputs flip' _ c1 (outputs c1)) as [[c2' os2'] ev2'].
    cbn [fst] in *. inversion E; subst. reflexivity.
  - rewrite !perform_update_repainted. split; [reflexivity|].
    unfold perform_update.
    destruct (_ =? 0); [reflexivity|].
    pose proof (calculate_damage_events c) as (_ & Ef & _).
    destruct (calculate_damage c) as [c1 ev1]. cbn [snd] in Ef.
    pose proof (repaint_outputs_spec flip
                  (Z.land (scheduled_updates c) (U32.not (pending_flips c)))
                  (outputs c1) c1) as L.
    pose proof (repaint_outputs_spec flip'
                  (Z.land (scheduled_updates c) (U32.not (pending_flips c)))
                  (outputs c1) c1) as L'.
    cbn zeta in L, L'.
    destruct (repaint_outputs flip _ c1 (outputs c1)) as [[c2 os2] ev2].
    destruct (repaint_outputs flip' _ c1 (outputs c1)) as [[c2' os2'] ev2'].
    cbn [fst snd] in *.
    destruct L as (_ & B & _). destruct L' as (_ & B' & _).
    rewrite !flipped_app, Ef, B, B'. reflexivity.
Qed.

(** The mask of an output is one bit, or no bit when the id is outside
    the mask. *)
Lemma mask_cases o :
  SWC_OUTPUT_MASK o = 0
  \/ (0 <= id o < 32 /\ SWC_OUTPUT_MASK o = 2 ^ id o).
Proof.
  unfold SWC_OUTPUT_MASK, U32.wrap, U32.modulus.
  destruct (Z_lt_le_dec (id o) 0) as [N|P].
  - left. rewrite Z.shiftl_1_l, Z.pow_neg_r by exact N. reflexivity.
  - rewrite Z.shiftl_1_l.
    destruct (Z_lt_le_dec (id o) 32) as [L|G].
    + right. split; [lia|]. apply Z.mod_small.
      split; [apply Z.pow_nonneg; lia | apply Z.pow_lt_mono_r; lia].
    + left. replace (id o) with ((id o - 32) + 32) by lia.
      rewrite Z.pow_add_r by lia. apply Z_mod_mult.
Qed.

(** X5. [swc_compositor_schedule_update] adds the output's bit to
    [scheduled_updates], in every case, and touches nothing else. *)
Theorem schedule_update_sets_bit c o :
  fst (swc_compositor_schedule_update c o)
  = set_scheduled_updates c (Z.lor (scheduled_updates c) (SWC_OUTPUT_MASK o)).
Proof.
  unfold swc_compositor_schedule_update.
  destruct (Z.land (scheduled_updates c) (SWC_OUTPUT_MASK o) =? 0) eqn:B;
    cbn [negb].
  - destruct (negb (negb (scheduled_updates c =? 0))); reflexivity.
  - cbn [fst]. apply Z.eqb_neq in B.
    destruct (mask_cases o) as [M0 | [Hid M]].
    + rewrite M0, Z.land_0_r in B. congruence.
    + rewrite M in *.
      assert (T : Z.testbit (scheduled_updates c) (id o) = true).
      { destruct (Z.testbit (scheduled_updates c) (id o)) eqn:T; [reflexivity|].
        exfalso. apply B. apply Z.bits_inj'. intros n Hn.
        rewrite Z.land_spec, Z.pow2_bits_eqb, Z.bits_0 by lia.
        destruct (Z.eqb_spec (id o) n) as [E'|]; [subst n; now rewrite T|].
        apply andb_false_r. }
      assert (E : Z.lor (scheduled_updates c) (2 ^ id o) = scheduled_updates c).
      { apply Z.bits_inj'. intros n Hn.
        rewrite Z.lor_spec, Z.pow2_bits_eqb by lia.
        destruct (Z.eqb_spec (id o) n) as [E'|]; [subst n; now rewrite T|].
        apply orb_false_r. }
      rewrite E. destruct c; reflexivity.
Qed.

Lemma repainted_frame_callbacks t (ss : list swc_surface) :
  repainted (map (fun s => SendFrameCallbacks s t) ss) = [].
Proof. induction ss as [|s ss IH]; [reflexivity | exact IH]. Qed.



End PipelineFacts.

(** ** More on damage *)

Module AccumulationFacts.

Import Compositor RegionFacts SchedulingFacts.

Lemma contains_empty_region r px py :
  Region.not_empty r = false -> Region.contains r px py = false.
Proof.
  intros H. destruct (Region.contains r px py) eqn:C; [|reflexivity].
  assert (N : Region.not_empty r = true)
    by (apply not_empty_spec; exists px, py; exact C).
  congruence.
Qed.

(** One surface of the loop: what it adds to the damage, what it is
    left with, and the flush it causes. *)
Lemma calculate_damage_surface_damage opq dmg s :
  let r := calculate_damage_surface opq dmg s in
  let s' := fst (fst (fst r)) in
  (forall px py,
      Region.contains (snd (fst r)) px py =
      Region.contains dmg px py || surface_damage_at s px py)
  /\ surface_clean s' = true
  /\ geometry s' = geometry s
  /\ state_opaque s' = state_opaque s
  /\ state_input s' = state_input s
  /\ extents (class_state s') = extents (class_state s)
  /\ map state_damage (flushes (snd r))
     = (if Region.not_empty (state_damage s) then [state_damage s] else [])
  /\ List.length (snd r) = List.length (flushes (snd r)).
Proof.
  unfold calculate_damage_surface, surface_damage_at, surface_clean. cbn zeta.
  cbn [set_class_state set_clip state_damage class_state border_damaged].
  assert (B : forall px py,
             Region.contains
               (Region.subtract (Region.init_with_extents (extents (class_state s)))
                  (Region.init_rect (x (geometry s)) (y (geometry s))
                                    (width (geometry s)) (height (geometry s))))
               px py
             = Region.box_contains (extents (class_state s)) px py
               && negb (in_rectangle (geometry s) px py)).
  { intros px py. rewrite contains_subtract, contains_init_rect.
    unfold Region.init_with_extents, Region.contains, in_rectangle. simpl.
    now rewrite orb_false_r. }
  destruct (Region.not_empty (state_damage s)) eqn:N;
    cbn [set_class_state set_state_damage class_state border_damaged set_clip
         state_damage extents];
    destruct (border_damaged (class_state s)) eqn:D;
    cbn [fst snd set_class_state set_state_damage set_border_damaged class_state
         border_damaged state_damage geometry state_opaque state_input extents
         set_clip clip flushes flat_map map app List.length andb negb];
    repeat split; try reflexivity; try (rewrite ?N, ?D; reflexivity);
    intros px py;
    rewrite ?contains_union, ?contains_translate, ?B,
      ?(contains_empty_region _ _ _ N), ?orb_false_r;
    destruct (Region.contains dmg px py);
    try destruct (Region.contains (state_damage s) (px - x (geometry s))
                                  (py - y (geometry s)));
    reflexivity.
Qed.

Lemma flushes_app a b : flushes (a ++ b) = flushes a ++ flushes b.
Proof. apply flat_map_app. Qed.

Lemma calculate_damage_loop_damage ss : forall opq dmg,
  let r := calculate_damage_loop ss opq dmg in
  let ss' := fst (fst (fst r)) in
  (forall px py,
      Region.contains (snd (fst r)) px py =
      Region.contains dmg px py
      || existsb (fun s => surface_damage_at s px py) ss)
  /\ forallb surface_clean ss' = true
  /\ map geometry ss' = map geometry ss
  /\ map state_opaque ss' = map state_opaque ss
  /\ map state_input ss' = map state_input ss
  /\ map state_damage (flushes (snd r))
     = filter Region.not_empty (map state_damage ss)
  /\ List.length (snd r) = List.length (flushes (snd r)).
Proof.
  induction ss as [|s ss IH]; intros opq dmg; cbn zeta.
  - simpl. repeat split. intros. now rewrite orb_false_r.
  - cbn [calculate_damage_loop].
    pose proof (calculate_damage_surface_damage opq dmg s) as S.
    destruct (calculate_damage_surface opq dmg s) as [[[s1 opq1] dmg1] ev1].
    cbn [fst snd] in S.
    destruct S as (S1 & S2 & S3 & S4 & S5 & _ & S7 & S8).
    specialize (IH opq1 dmg1). cbn zeta in IH.
    destruct (calculate_damage_loop ss opq1 dmg1) as [[[ss2 opq2] dmg2] ev2].
    cbn [fst snd] in *.
    destruct IH as (I1 & I2 & I3 & I4 & I5 & I6 & I7).
    cbn [forallb map existsb filter].
    rewrite flushes_app, map_app, !length_app, S7, I6, S8, I7, S2, I2, S3, I3,
      S4, I4, S5, I5.
    repeat split; try reflexivity.
    + intros px py. rewrite I1, S1. now rewrite orb_assoc.
    + destruct (Region.not_empty (state_damage s)); reflexivity.
Qed.

(** X7. [calculate_damage] adds to [compositor->damage] the damage of every
    surface, moved to the surface's position, and the border of every
    surface whose border is damaged, and nothing else: a surface with no
    damage and a clean border adds nothing. *)
Theorem calculate_damage_accumulates c px py :
  Region.contains (damage (fst (calculate_damage c))) px py =
  Region.contains (damage c) px py
  || existsb (fun s => surface_damage_at s px py) (surfaces c).
Proof.
  unfold calculate_damage.
  pose proof (calculate_damage_loop_damage (surfaces c) Region.empty (damage c))
    as (H & _).
  destruct (calculate_damage_loop _ _ _) as [[[ss opq] dmg] ev].
  cbn [fst snd set_damage damage] in *. apply H.
Qed.

(** X8. [calculate_damage] leaves every surface with no damage and a clean
    border, and where it was: geometry, opaque and input regions are not
    touched. *)
Theorem calculate_damage_cleans_surfaces c :
  let ss' := surfaces (fst (calculate_damage c)) in
  forallb surface_clean ss' = true
  /\ map geometry ss' = map geometry (surfaces c)
  /\ map state_opaque ss' = map state_opaque (surfaces c)
  /\ map state_input ss' = map state_input (surfaces c).
Proof.
  cbn zeta. unfold calculate_damage.
  pose proof (calculate_damage_loop_damage (surfaces c) Region.empty (damage c))
    as (_ & H2 & H3 & H4 & H5 & _).
  destruct (calculate_damage_loop _ _ _) as [[[ss opq] dmg] ev].
  cbn [fst snd set_damage set_opaque set_surfaces surfaces] in *. auto.
Qed.

(** X9. The renderer is asked to flush the surfaces that have damage, each
    once, in order, with the damage still on the surface; and
    [calculate_damage] makes no other call. *)
Theorem calculate_damage_flushes c :
  let ev := snd (calculate_damage c) in
  map state_damage (flushes ev)
  = filter Region.not_empty (map state_damage (surfaces c))
  /\ List.length ev = List.length (flushes ev).
Proof.
  cbn zeta. unfold calculate_damage.
  pose proof (calculate_damage_loop_damage (surfaces c) Region.empty (damage c))
    as (_ & _ & _ & _ & _ & H6 & H7).
  destruct (calculate_damage_loop _ _ _) as [[[ss opq] dmg] ev].
  cbn [fst snd] in *. auto.
Qed.

Lemma calculate_damage_surface_again opq dmg dmg2 s :
  let r := calculate_damage_surface opq dmg s in
  calculate_damage_surface opq dmg2 (fst (fst (fst r)))
  = (fst (fst (fst r)), snd (fst (fst r)), dmg2, []).
Proof.
  destruct s as [sd so si g [cl ex bd]].
  unfold calculate_damage_surface, surface_opaque. cbn zeta.
  cbn [state_damage state_opaque state_input geometry class_state clip extents
       border_damaged set_class_state set_clip set_state_damage
       set_border_damaged].
  destruct (Region.not_empty sd) eqn:N; destruct bd;
    cbn [fst snd state_damage state_opaque state_input geometry class_state
         clip extents border_damaged set_class_state set_clip set_state_damage
         set_border_damaged];
    rewrite ?N;
    cbn [fst snd state_damage state_opaque state_input geometry class_state
         clip extents border_damaged set_class_state set_clip set_state_damage
         set_border_damaged Region.not_empty Region.empty existsb];
    reflexivity.
Qed.

Lemma calculate_damage_loop_again ss : forall opq dmg dmg2,
  let r := calculate_damage_loop ss opq dmg in
  calculate_damage_loop (fst (fst (fst r))) opq dmg2
  = (fst (fst (fst r)), snd (fst (fst r)), dmg2, []).
Proof.
  induction ss as [|s ss IH]; intros opq dmg dmg2; [reflexivity|].
  cbn zeta. cbn [calculate_damage_loop].
  pose proof (calculate_damage_surface_again opq dmg dmg2 s) as S.
  cbn zeta in S.
  destruct (calculate_damage_surface opq dmg s) as [[[s1 opq1] dmg1] ev1].
  cbn [fst snd] in S.
  specialize (IH opq1 dmg1 dmg2). cbn zeta in IH.
  destruct (calculate_damage_loop ss opq1 dmg1) as [[[ss2 opq2] dmg2'] ev2].
  cbn [fst snd] in *.
  cbn [calculate_damage_loop]. rewrite S, IH. reflexivity.
Qed.

(** X10. Calculating the damage twice is calculating it once: the second
    run returns the state the first left and calls nothing. *)
Theorem calculate_damage_twice c :
  calculate_damage (fst (calculate_damage c)) = (fst (calculate_damage c), []).
Proof.
  unfold calculate_damage at 2 3.
  pose proof (calculate_damage_loop_again (surfaces c) Region.empty (damage c)) as H.
  cbn zeta in H.
  destruct (calculate_damage_loop (surfaces c) Region.empty (damage c))
    as [[[ss opq] dmg] ev].
  cbn [fst snd] in *.
  unfold calculate_damage.
  cbn [surfaces damage set_damage set_opaque set_surfaces].
  rewrite (H dmg). reflexivity.
Qed.

Lemma repaint_output_leaves flip c o px py :
  Region.contains (damage (fst (fst (repaint_output flip c o)))) px py =
  Region.contains (damage c) px py
  && negb (in_rectangle (output_geometry o) px py)
  && negb (Region.contains (previous_damage o) px py).
Proof.
  unfold repaint_output. cbn [fst snd set_damage damage].
  rewrite contains_subtract, contains_union, contains_intersect_rect,
    contains_init_rect.
  unfold in_rectangle.
  destruct (Region.contains (damage c) px py),
           (Region.contains (previous_damage o) px py),
           (_ && _ && _ && _); reflexivity.
Qed.


Lemma repaint_outputs_damage flip updates os px py : forall c,
  let c' := fst (fst (repaint_outputs flip updates c os)) in
  (Region.contains (damage c') px py = true ->
   Region.contains (damage c) px py = true)
  /\ existsb (fun o => serviced updates o
                       && in_rectangle (output_geometry o) px py) os
     && Region.contains (damage c') px py = false.
Proof.
  induction os as [|o os IH]; intros c; cbn zeta.
  - simpl. auto.
  - cbn [repaint_outputs existsb]. unfold serviced at 1.
    destruct (Z.land updates (SWC_OUTPUT_MASK o) =? 0); cbn [negb andb orb].
    + specialize (IH c). cbn zeta in IH.
      destruct (repaint_outputs flip updates c os) as [[c2 os2] ev2].
      exact IH.
    + pose proof (repaint_output_leaves flip c o px py) as L.
      destruct (repaint_output flip c o) as [[c1 o1] ev1]. cbn [fst snd] in L.
      specialize (IH c1). cbn zeta in IH.
      destruct (repaint_outputs flip updates c1 os) as [[c2 os2] ev2].
      cbn [fst snd] in *. destruct IH as [Sub Clr].
      split.
      * intros H. apply Sub in H. rewrite L in H.
        apply andb_true_iff in H. destruct H as [H _].
        apply andb_true_iff in H. tauto.
      * destruct (Region.contains (damage c2) px py) eqn:D;
          [|now rewrite andb_false_r].
        rewrite andb_true_r in *. specialize (Sub eq_refl).
        rewrite L in Sub.
        apply andb_true_iff in Sub. destruct Sub as [Sub _].
        apply andb_true_iff in Sub. destruct Sub as [_ Sub].
        apply negb_true_iff in Sub. rewrite Sub. exact Clr.
Qed.

(** X6. After [perform_update] no point of the rectangle of an output it
    serviced is left in [compositor->damage]. *)
Theorem perform_update_clears_serviced flip c px py :
  let U := Z.land (scheduled_updates c) (U32.not (pending_flips c)) in
  existsb (fun o => serviced U o && in_rectangle (output_geometry o) px py)
          (outputs c)
  && Region.contains (damage (fst (perform_update flip c))) px py = false.
Proof.
  cbn zeta. unfold perform_update.
  destruct (Z.land (scheduled_updates c) (U32.not (pending_flips c)) =? 0) eqn:U0.
  - apply Z.eqb_eq in U0. rewrite U0. cbn [fst].
    assert (E : existsb (fun o => serviced 0 o
                                  && in_rectangle (output_geometry o) px py)
                        (outputs c) = false).
    { induction (outputs c) as [|o os IH]; [reflexivity|].
      cbn [existsb]. rewrite IH. unfold serviced. now rewrite Z.land_0_l. }
    now rewrite E.
  - pose proof (calculate_damage_frame c) as (Fo & _).
    destruct (calculate_damage c) as [c1 ev1]. cbn [fst] in Fo. rewrite <- Fo.
    pose proof (repaint_outputs_damage flip
                  (Z.land (scheduled_updates c) (U32.not (pending_flips c)))
                  (outputs c1) px py c1) as [_ Clr].
    destruct (repaint_outputs flip _ c1 (outputs c1)) as [[c2 os2] ev2].
    cbn [fst snd] in *. exact Clr.
Qed.

End AccumulationFacts.

(** ** Bindings, focus and the life of the compositor *)

Module InputFacts.

Import Compositor.

Section Bindings.

Variables SWC_MOD_CTRL SWC_MOD_ALT SWC_MOD_LOGO SWC_MOD_SHIFT SWC_MOD_ANY : Z.
Variables handle_terminate_ptr handle_switch_vt_ptr display_ptr tty_ptr : Z.

Local Abbreviation key_modifiers' :=
  (key_modifiers SWC_MOD_CTRL SWC_MOD_ALT SWC_MOD_LOGO SWC_MOD_SHIFT).
Local Abbreviation scan_bindings' :=
  (scan_bindings SWC_MOD_CTRL SWC_MOD_ALT SWC_MOD_LOGO SWC_MOD_SHIFT SWC_MOD_ANY).
Local Abbreviation handle_key' :=
  (handle_key SWC_MOD_CTRL SWC_MOD_ALT SWC_MOD_LOGO SWC_MOD_SHIFT SWC_MOD_ANY).
Local Abbreviation initialize' :=
  (swc_compositor_initialize SWC_MOD_CTRL SWC_MOD_ALT SWC_MOD_ANY
                             handle_terminate_ptr handle_switch_vt_ptr
                             display_ptr tty_ptr).

Lemma scan_bindings_app xkb time key keysym bs bs' :
  scan_bindings' xkb time key keysym (bs ++ bs') =
  match scan_bindings' xkb time key keysym bs with
  | Some ev => Some ev
  | None => scan_bindings' xkb time key keysym bs'
  end.
Proof.
  induction bs as [|b bs IH]; [reflexivity|].
  cbn [app scan_bindings].
  destruct (value b =? keysym); [|exact IH].
  destruct ((modifiers b =? SWC_MOD_ANY) || (modifiers b =? _));
    [reflexivity | exact IH].
Qed.

(** X12. A binding added with [swc_compositor_add_key_binding] never takes a
    key from the bindings that were there: where one of them handled the
    key, the same call is made as before; the new binding is tried only
    where none did. *)
Theorem add_key_binding_keeps_priority c m v h d time key key_state :
  let r := handle_key' c time key key_state in
  handle_key' (swc_compositor_add_key_binding c m v h d) time key key_state =
  if fst r then r
  else handle_key' (set_key_bindings c [Binding v m h d]) time key key_state.
Proof.
  cbn zeta. unfold handle_key.
  cbn [swc_compositor_add_key_binding set_key_bindings seat_xkb key_bindings].
  destruct (key_state =? WL_KEYBOARD_KEY_STATE_PRESSED); [|reflexivity].
  rewrite scan_bindings_app.
  destruct (scan_bindings' (seat_xkb c) time key _ (key_bindings c));
    reflexivity.
Qed.

(** The bound given to the loop over the VT keysyms is never what stops
    it: with any more iterations allowed it adds the same bindings. *)
Lemma add_switch_vt_bindings_fuel extra c :
  add_switch_vt_bindings SWC_MOD_ANY handle_switch_vt_ptr tty_ptr
    (12 + extra) XKB_KEY_XF86Switch_VT_1 c
  = add_switch_vt_bindings SWC_MOD_ANY handle_switch_vt_ptr tty_ptr
      12 XKB_KEY_XF86Switch_VT_1 c.
Proof. destruct extra; reflexivity. Qed.

Lemma pointer_region_loop_contains os : forall region px py,
  Region.contains (pointer_region_loop os region) px py =
  Region.contains region px py || on_outputs os px py.
Proof.
  induction os as [|o os IH]; intros region px py; cbn [pointer_region_loop].
  - unfold on_outputs. simpl. now rewrite orb_false_r.
  - rewrite IH, RegionFacts.contains_union, RegionFacts.contains_init_rect.
    unfold on_outputs. cbn [existsb]. unfold in_rectangle at 2.
    now rewrite orb_assoc.
Qed.

(** X13. [swc_compositor_initialize] succeeds exactly when every part comes
    up and outputs are found. The compositor then has no surface, no
    damage, nothing scheduled and no flip pending; its bindings are
    Control+Alt+BackSpace for [handle_terminate] followed by the twelve
    VT keysyms, in order, with the sentinel, for [handle_switch_vt]; and
    the pointer region given to the seat is the union of the output
    rectangles. *)
Theorem initialize_state a xkb :
  let r := initialize' a xkb in
  match swc_drm_create_outputs a with
  | Some os =>
      if udev_new a && swc_tty_initialize a && swc_seat_initialize a
         && swc_drm_initialize a && swc_renderer_initialize a
      then
        fst r =
        Some (Compositor [] os Region.empty Region.empty 0 0
                (Binding XKB_KEY_BackSpace (Z.lor SWC_MOD_CTRL SWC_MOD_ALT)
                         handle_terminate_ptr display_ptr
                 :: map (fun n => Binding (XKB_KEY_XF86Switch_VT_1 + Z.of_nat n)
                                          SWC_MOD_ANY handle_switch_vt_ptr tty_ptr)
                        (seq 0 12))
                xkb)
        /\ exists region,
            In (SeatSetPointerRegion region) (snd r)
            /\ forall px py, Region.contains region px py = on_outputs os px py
      else fst r = None
  | None => fst r = None
  end.
Proof.
  cbn zeta. unfold swc_compositor_initialize.
  destruct a as [u t s d rr [os|]];
    cbn [udev_new swc_tty_initialize swc_seat_initialize swc_drm_initialize
         swc_renderer_initialize swc_drm_create_outputs];
    destruct u, t, s, d, rr; cbn [negb andb fst snd]; try reflexivity.
  split; [reflexivity|].
  eexists. split.
  - do 8 right. left. reflexivity.
  - intros px py. now rewrite pointer_region_loop_contains.
Qed.

(** X14. When [swc_compositor_initialize] fails, it finalizes the parts that
    had come up, all of them, last one first; when it succeeds it
    finalizes nothing. *)
Theorem initialize_unwinds a xkb :
  let r := initialize' a xkb in
  finalized (snd r) =
  match fst r with
  | Some _ => []
  | None => rev (brought_up a)
  end.
Proof.
  cbn zeta. unfold swc_compositor_initialize, brought_up.
  destruct a as [u t s d rr [os|]];
    cbn [udev_new swc_tty_initialize swc_seat_initialize swc_drm_initialize
         swc_renderer_initialize swc_drm_create_outputs];
    destruct u, t, s, d, rr; reflexivity.
Qed.

Lemma initialize_bindings a xkb c :
  fst (initialize' a xkb) = Some c ->
  seat_xkb c = xkb
  /\ key_bindings c =
     Binding XKB_KEY_BackSpace (Z.lor SWC_MOD_CTRL SWC_MOD_ALT)
             handle_terminate_ptr display_ptr
     :: map (fun n => Binding (XKB_KEY_XF86Switch_VT_1 + Z.of_nat n)
                              SWC_MOD_ANY handle_switch_vt_ptr tty_ptr)
            (seq 0 12).
Proof.
  unfold swc_compositor_initialize.
  destruct a as [u t s d rr [os|]];
    cbn [udev_new swc_tty_initialize swc_seat_initialize swc_drm_initialize
         swc_renderer_initialize swc_drm_create_outputs];
    destruct u, t, s, d, rr; cbn [negb fst]; try discriminate.
  intros E. inversion E; subst c. split; reflexivity.
Qed.

(** X15. With the bindings [swc_compositor_initialize] installs, a pressed
    key whose keysym is one of XF86Switch_VT_1 to _12 is taken by
    [handle_switch_vt], whatever the modifiers, and the key is
    swallowed. *)
Theorem initialized_vt_key_switches a xkb c time key n :
  fst (initialize' a xkb) = Some c ->
  xkb_state_key_get_one_sym (state xkb) (key + 8)
  = XKB_KEY_XF86Switch_VT_1 + n ->
  0 <= n < 12 ->
  handle_key' c time key WL_KEYBOARD_KEY_STATE_PRESSED =
  (true, [BindingHandler handle_switch_vt_ptr time
                         (XKB_KEY_XF86Switch_VT_1 + n) tty_ptr;
          Stdout "-> handled"]).
Proof.
  intros Hc Hk Hn.
  destruct (initialize_bindings a xkb c Hc) as [Sx Sb].
  unfold handle_key. rewrite Z.eqb_refl, Sx, Sb, Hk.
  replace n with (Z.of_nat (Z.to_nat n)) by lia.
  assert (Hk12 : (Z.to_nat n < 12)%nat) by lia.
  generalize dependent (Z.to_nat n). clear. intros k Hk12.
  do 12 (destruct k as [|k];
         [cbn [seq map scan_bindings value modifiers handler data Z.of_nat
               Pos.of_succ_nat Pos.succ XKB_KEY_BackSpace
               XKB_KEY_XF86Switch_VT_1 Z.add Pos.add Pos.add_carry Z.eqb
               Pos.eqb];
          rewrite Z.eqb_refl; reflexivity|]).
  lia.
Qed.

(** X16. With those bindings, a pressed BackSpace whose modifiers, less the
    consumed ones, are Control and Alt and no other is taken by
    [handle_terminate]. *)
Theorem initialized_backspace_terminates a xkb c time key :
  fst (initialize' a xkb) = Some c ->
  xkb_state_key_get_one_sym (state xkb) (key + 8) = XKB_KEY_BackSpace ->
  key_modifiers' xkb key = Z.lor SWC_MOD_CTRL SWC_MOD_ALT ->
  handle_key' c time key WL_KEYBOARD_KEY_STATE_PRESSED =
  (true, [BindingHandler handle_terminate_ptr time XKB_KEY_BackSpace display_ptr;
          Stdout "-> handled"]).
Proof.
  intros Hc Hk Hm.
  destruct (initialize_bindings a xkb c Hc) as [Sx Sb].
  unfold handle_key. rewrite Z.eqb_refl, Sx, Sb, Hk.
  cbn [scan_bindings value modifiers handler data].
  rewrite Hm, !Z.eqb_refl, orb_true_r. reflexivity.
Qed.

End Bindings.

(** X15 at work: key 61 gives XF86Switch_VT_3 with Shift held. *)
Lemma initialized_vt_key_switches_witness :
  handle_key 1 2 4 8 4294967295 compositor_vt3 5 61 WL_KEYBOARD_KEY_STATE_PRESSED
  = (true, [BindingHandler 200 5 (XKB_KEY_XF86Switch_VT_1 + 2) 20;
            Stdout "-> handled"]).
Proof.
  apply (initialized_vt_key_switches 1 2 4 8 4294967295 100 200 10 20
           answers_ok xkb_vt3 compositor_vt3 5 61 2).
  - reflexivity.
  - reflexivity.
  - lia.
Defined.

(** X16 at work: key 14 gives BackSpace with Control and Alt held. *)
Lemma initialized_backspace_terminates_witness :
  handle_key 1 2 4 8 4294967295 compositor_ctrl_alt_backspace 5 14
             WL_KEYBOARD_KEY_STATE_PRESSED
  = (true, [BindingHandler 100 5 XKB_KEY_BackSpace 10; Stdout "-> handled"]).
Proof.
  apply (initialized_backspace_terminates 1 2 4 8 4294967295 100 200 10 20
           answers_ok xkb_ctrl_alt_backspace compositor_ctrl_alt_backspace 5 14).
  - reflexivity.
  - reflexivity.
  - reflexivity.
Defined.

(** X17. [handle_switch_vt] on the keysym XF86Switch_VT_n asks the tty for
    VT [n], and asks nothing when [n] is the VT the tty is on. *)
Theorem switch_vt_number tty_vt time n :
  1 <= n <= 12 ->
  handle_switch_vt tty_vt time (XKB_KEY_XF86Switch_VT_1 + n - 1) =
  HandlerPrintVt n :: (if n =? tty_vt then [] else [TtySwitchVt n]).
Proof.
  intros H. unfold handle_switch_vt.
  replace (XKB_KEY_XF86Switch_VT_1 + n - 1 - XKB_KEY_XF86Switch_VT_1 + 1)
    with n by lia.
  rewrite Z.mod_small by lia.
  destruct (n =? tty_vt); reflexivity.
Qed.

(** X17 at work: from VT 2, the keysym of VT 12 switches and that of
    VT 2 does not. *)
Lemma switch_vt_number_witness :
  handle_switch_vt 2 0 XKB_KEY_XF86Switch_VT_12 = [HandlerPrintVt 12; TtySwitchVt 12]
  /\ handle_switch_vt 2 0 (XKB_KEY_XF86Switch_VT_1 + 1) = [HandlerPrintVt 2].
Proof.
  split.
  - apply (switch_vt_number 2 0 12). lia.
  - apply (switch_vt_number 2 0 2). lia.
Defined.

(** X18. [handle_focus] gives the focus to the topmost surface whose input
    region holds the pointer: no surface in front of the one chosen
    holds it, and no surface at all when the focus is cleared. *)
Theorem focus_is_topmost_hit c px py :
  match handle_focus c px py with
  | Some s =>
      exists above below,
        surfaces c = above ++ s :: below
        /\ pointer_in_input px py s = true
        /\ existsb (pointer_in_input px py) above = false
  | None => existsb (pointer_in_input px py) (surfaces c) = false
  end.
Proof.
  unfold handle_focus.
  induction (surfaces c) as [|s ss IH]; [reflexivity|].
  cbn [handle_focus_scan existsb].
  fold (pointer_in_input px py s).
  destruct (pointer_in_input px py s) eqn:H.
  - exists [], ss. repeat split. exact H.
  - destruct (handle_focus_scan px py ss) as [s'|].
    + destruct IH as (above & below & E & Hs & Ha).
      exists (s :: above), below. rewrite E. cbn [existsb app].
      rewrite H, Ha. repeat split. exact Hs.
    + exact IH.
Qed.


End InputFacts.

(** ** More on the evdev device *)

Module PumpFacts.

Import Evdev EvdevFacts.

Lemma signed_of_wrap a b : U32.wrap a = U32.wrap b -> U32.signed a = U32.signed b.
Proof. intros H. unfold U32.signed. now rewrite H. Qed.

Lemma signed_add_signed a b : U32.signed (U32.signed a + b) = U32.signed (a + b).
Proof.
  apply signed_of_wrap. destruct (signed_congruent a) as [k Hk]. rewrite Hk.
  unfold U32.wrap.
  replace (a + k * U32.modulus + b) with (a + b + k * U32.modulus) by ring.
  apply Z_mod_plus_full.
Qed.

Lemma fixed_of_signed a : wl_fixed_from_int (U32.signed a) = U32.signed (a * 256).
Proof.
  unfold wl_fixed_from_int. apply signed_of_wrap.
  rewrite (Z.mul_comm (U32.signed a)), (Z.mul_comm a). apply wrap_mul_signed.
Qed.

(** A relative motion event only moves the accumulator. *)
Lemma handle_event_rel_motion dev e a b p :
  is_rel_motion e = true ->
  motion_rel dev = RelMotion (U32.signed a) (U32.signed b) p ->
  handle_event dev e =
  (Device (capabilities dev)
          (RelMotion (U32.signed (a + (if code e =? REL_X then value e else 0)))
                     (U32.signed (b + (if code e =? REL_Y then value e else 0)))
                     true), []).
Proof.
  intros M R. unfold is_rel_motion in M.
  apply andb_true_iff in M. destruct M as [T C]. apply Z.eqb_eq in T.
  unfold handle_event, is_motion_event. rewrite T.
  cbn [EV_REL EV_ABS Z.eqb Pos.eqb andb orb negb]. rewrite C. cbn [negb].
  cbn [ARRAY_SIZE_event_handlers Z.ltb Z.compare Pos.compare Pos.compare_cont
       event_handlers EV_KEY EV_REL Z.eqb Pos.eqb].
  cbn [negb orb]. cbv iota beta.
  unfold handle_rel_event, set_motion_rel. rewrite R. cbn [dx dy].
  apply orb_true_iff in C. destruct C as [C|C]; apply Z.eqb_eq in C; rewrite C;
    cbn [REL_X REL_Y Z.eqb Pos.eqb app];
    rewrite ?signed_add_signed, ?Z.add_0_r; reflexivity.
Qed.

Lemma read_loop_unit calls pt dev :
  (let '(device, cb', event', rest') := read_loop calls pt dev in
   (device, (@nil callback) ++ cb', event', rest'))
  = read_loop calls pt dev.
Proof. destruct (read_loop calls pt dev) as [[[d c] e] r]. reflexivity. Qed.

Lemma last_default {A} (l : list A) : forall x d d',
  last (x :: l) d = last (x :: l) d'.
Proof.
  induction l as [|y l IH]; intros x d d'; [reflexivity|].
  change (last (y :: l) d = last (y :: l) d'). apply IH.
Qed.

Lemma last_cons {A} (l : list A) x d : last (x :: l) d = last l x.
Proof.
  destruct l as [|y l]; [reflexivity|].
  change (last (y :: l) d = last (y :: l) x). apply last_default.
Qed.

Lemma total_cons c e es :
  total c (e :: es) = (if code e =? c then value e else 0) + total c es.
Proof. reflexivity. Qed.

(** A run of relative motion events read one after the other calls no
    handler and leaves the sums of their values, in 32 bits, in the
    accumulator. *)
Lemma read_loop_motion_run es : forall event dev a b p rest,
  forallb is_rel_motion es = true ->
  motion_rel dev = RelMotion (U32.signed a) (U32.signed b) p ->
  read_loop (map (Read 0) es ++ rest) (OuterRead event) dev =
  read_loop rest (OuterRead (last (map Some es) event))
            (Device (capabilities dev)
                    (RelMotion (U32.signed (a + total REL_X es))
                               (U32.signed (b + total REL_Y es))
                               (p || negb (Nat.eqb (List.length es) 0)))).
Proof.
  induction es as [|e es IH]; intros event dev a b p rest M R.
  - cbn [map app last List.length Nat.eqb negb]. unfold total. cbn [fold_right].
    rewrite !Z.add_0_r, orb_false_r, <- R. destruct dev; reflexivity.
  - cbn [forallb] in M. apply andb_true_iff in M. destruct M as [Me Mes].
    cbn [map app read_loop].
    change (0 =? - EAGAIN) with false.
    change (0 =? LIBEVDEV_READ_STATUS_SYNC) with false. cbv iota.
    rewrite (handle_event_rel_motion dev e a b p Me R), read_loop_unit.
    rewrite (IH (Some e)
                (Device (capabilities dev)
                   (RelMotion
                      (U32.signed (a + (if code e =? REL_X then value e else 0)))
                      (U32.signed (b + (if code e =? REL_Y then value e else 0)))
                      true))
                (a + (if code e =? REL_X then value e else 0))
                (b + (if code e =? REL_Y then value e else 0)) true rest Mes
                eq_refl).
    rewrite last_cons, !total_cons, !Z.add_assoc.
    cbn [capabilities List.length Nat.eqb negb orb].
    now rewrite orb_true_r.
Qed.

Lemma last_map_some {A} (l : list A) d :
  last (map Some l) (Some d) = Some (last l d).
Proof.
  revert d. induction l as [|x l IH]; intros d; [reflexivity|].
  change (map Some (x :: l)) with (Some x :: map Some l).
  rewrite !last_cons. apply IH.
Qed.

(** X20. A run of relative motion events followed by [-EAGAIN] is reported
    as one relative motion: at the time of the last event of the run,
    with the sums of the X and of the Y values as 24.8 numbers in 32
    bits; the device is as it was before the run. *)
Theorem motion_run_coalesces caps e es rest :
  forallb is_rel_motion (e :: es) = true ->
  handle_data (new_device caps) (map (Read 0) (e :: es) ++ Again :: rest) =
  (new_device caps,
   [RelativeMotion (Some (timeval_to_msec (time (last es e))))
                   (U32.signed (total REL_X (e :: es) * 256))
                   (U32.signed (total REL_Y (e :: es) * 256))],
   rest).
Proof.
  intros M. unfold handle_data, handle_data_flush_time.
  rewrite (read_loop_motion_run (e :: es) None (new_device caps) 0 0 false
                                (Again :: rest) M eq_refl).
  cbn [read_loop].
  change (map Some (e :: es)) with (Some e :: map Some es).
  rewrite last_cons, last_map_some.
  cbn [option_map handle_motion_events motion_rel pending List.length Nat.eqb
       negb orb dx dy set_motion_rel capabilities new_device app].
  rewrite !fixed_of_signed, !Z.add_0_l. reflexivity.
Qed.

(** X20 at work: three motion events, then the queue is empty. *)
Lemma motion_run_coalesces_witness :
  handle_data (new_device 1)
              [Read 0 (InputEvent (Timeval 2 0) EV_REL REL_X 3);
               Read 0 (InputEvent (Timeval 2 1000) EV_REL REL_X 4);
               Read 0 (InputEvent (Timeval 2 5000) EV_REL REL_Y (-1));
               Again; Read 0 (InputEvent (Timeval 3 0) EV_REL REL_X 1)]
  = (new_device 1, [RelativeMotion (Some 2005) 1792 (-256)],
     [Read 0 (InputEvent (Timeval 3 0) EV_REL REL_X 1)]).
Proof.
  apply (motion_run_coalesces 1
           (InputEvent (Timeval 2 0) EV_REL REL_X 3)
           [InputEvent (Timeval 2 1000) EV_REL REL_X 4;
            InputEvent (Timeval 2 5000) EV_REL REL_Y (-1)]
           [Read 0 (InputEvent (Timeval 3 0) EV_REL REL_X 1)]).
  reflexivity.
Defined.

(** An event that is not a motion event leaves a device with no motion
    pending as it is. *)
Lemma handle_event_idle dev e :
  pending (motion_rel dev) = false ->
  is_motion_event e = false ->
  fst (handle_event dev e) = dev.
Proof.
  intros P M. unfold handle_event. rewrite M. cbn [negb].
  unfold handle_motion_events. rewrite P.
  destruct (type e <? ARRAY_SIZE_event_handlers); [|reflexivity].
  unfold event_handlers.
  destruct (type e =? EV_KEY) eqn:K.
  - unfold handle_key_event. destruct (_ || _); reflexivity.
  - destruct (type e =? EV_REL) eqn:R.
    + unfold is_motion_event in M. rewrite R in M.
      destruct ((code e =? REL_X) || (code e =? REL_Y)) eqn:C;
        [discriminate M|].
      apply orb_false_iff in C. destruct C as [CX CY].
      unfold handle_rel_event. rewrite CX, CY.
      destruct (code e =? REL_WHEEL); [reflexivity|].
      destruct (code e =? REL_HWHEEL); reflexivity.
    + destruct (type e =? EV_ABS); reflexivity.
Qed.

(** With a motion pending, an event that is not a motion event reports
    the motion at its own time, and is then handled as by an idle
    device. *)
Lemma handle_event_flushes caps mx my e :
  is_motion_event e = false ->
  handle_event (Device caps (RelMotion mx my true)) e =
  (fst (handle_event (new_device caps) e),
   RelativeMotion (Some (timeval_to_msec (time e)))
                  (wl_fixed_from_int mx) (wl_fixed_from_int my)
   :: snd (handle_event (new_device caps) e)).
Proof.
  intros N. unfold handle_event. rewrite N. cbn [negb].
  unfold handle_motion_events, set_motion_rel, new_device.
  cbn [motion_rel pending dx dy capabilities].
  match goal with
  | |- context [if type e <? ARRAY_SIZE_event_handlers then ?a else ?b] =>
      destruct (if type e <? ARRAY_SIZE_event_handlers then a else b)
        as [d2 cb2]
  end.
  reflexivity.
Qed.

(** X21. The event that ends a run of relative motion events, not being one,
    reports the run first, at its own time and not at the time of the
    last motion event, and is then handled as from an idle device. *)
Theorem motion_flushed_by_next_event caps e es e' rest :
  forallb is_rel_motion (e :: es) = true ->
  is_motion_event e' = false ->
  handle_data (new_device caps)
              (map (Read 0) (e :: es) ++ Read 0 e' :: Again :: rest) =
  (new_device caps,
   RelativeMotion (Some (timeval_to_msec (time e')))
                  (U32.signed (total REL_X (e :: es) * 256))
                  (U32.signed (total REL_Y (e :: es) * 256))
   :: snd (handle_event (new_device caps) e'),
   rest).
Proof.
  intros M N.
  pose proof (handle_event_idle (new_device caps) e' eq_refl N) as Idle.
  unfold handle_data, handle_data_flush_time.
  rewrite (read_loop_motion_run (e :: es) None (new_device caps) 0 0 false
                                (Read 0 e' :: Again :: rest) M eq_refl).
  cbn [read_loop].
  change (0 =? - EAGAIN) with false.
  change (0 =? LIBEVDEV_READ_STATUS_SYNC) with false. cbv iota.
  cbn [List.length Nat.eqb negb orb capabilities new_device].
  change (Device caps (RelMotion 0 0 false)) with (new_device caps) in *.
  rewrite (handle_event_flushes caps _ _ e' N), Idle.
  cbn [option_map handle_motion_events new_device motion_rel pending app].
  rewrite !fixed_of_signed, !Z.add_0_l. cbn [app]. rewrite !app_nil_r.
  reflexivity.
Qed.

(** X21 at work: a motion, then a button press nine milliseconds later. *)
Lemma motion_flushed_by_next_event_witness :
  handle_data (new_device 1)
              [Read 0 (InputEvent (Timeval 2 0) EV_REL REL_X 3);
               Read 0 (InputEvent (Timeval 2 9000) EV_KEY BTN_MOUSE 1);
               Again]
  = (new_device 1,
     [RelativeMotion (Some 2009) 768 0; Button 2009 BTN_MOUSE 1], []).
Proof.
  apply (motion_flushed_by_next_event 1
           (InputEvent (Timeval 2 0) EV_REL REL_X 3) []
           (InputEvent (Timeval 2 9000) EV_KEY BTN_MOUSE 1) []);
    reflexivity.
Defined.

Lemma read_loop_sync_run es : forall e0 dev rest,
  read_loop (map (Read LIBEVDEV_READ_STATUS_SYNC) es ++ Again :: rest)
            (SyncRead e0) dev =
  let e := last es e0 in
  let '(d, cb) := handle_event dev e in
  let '(d', cb', event', rest') := read_loop rest (OuterRead (Some e)) d in
  (d', cb ++ cb', event', rest').
Proof.
  induction es as [|e1 es IH]; intros e0 dev rest; [reflexivity|].
  cbn [map app read_loop].
  change (LIBEVDEV_READ_STATUS_SYNC =? - EAGAIN) with false.
  change (LIBEVDEV_READ_STATUS_SYNC =? LIBEVDEV_READ_STATUS_SYNC) with true.
  cbv iota. rewrite IH, last_cons. reflexivity.
Qed.

(** X22. Of the events read while libevdev reports a resync, only the last
    one is handled: the others are overwritten unseen, whatever they
    are. *)
Theorem resync_handles_last_only pt e es dev rest :
  read_loop (map (Read LIBEVDEV_READ_STATUS_SYNC) (e :: es) ++ Again :: rest)
            pt dev =
  let '(d, cb) := handle_event dev (last es e) in
  let '(d', cb', event', rest') :=
    read_loop rest (OuterRead (Some (last es e))) d in
  (d', cb ++ cb', event', rest').
Proof.
  cbn [map app read_loop].
  change (LIBEVDEV_READ_STATUS_SYNC =? - EAGAIN) with false.
  change (LIBEVDEV_READ_STATUS_SYNC =? LIBEVDEV_READ_STATUS_SYNC) with true.
  cbv iota. apply read_loop_sync_run.
Qed.

(** X23. [swc_evdev_device_new] gives a device exactly when memory, the open
    and libevdev all succeed; the device is then a keyboard when it
    reports KEY_ENTER and a pointer when it reports REL_X, REL_Y and
    BTN_MOUSE, with no motion pending. When libevdev fails the
    descriptor is closed; on no path is the memory given back. *)
Theorem device_new_result a :
  let r := swc_evdev_device_new a in
  let opened := malloc_ok a && negb (swc_launch_open_device a =? -1) in
  let keyboard := libevdev_has_event_code a EV_KEY KEY_ENTER in
  let pointer := libevdev_has_event_code a EV_REL REL_X
                 && libevdev_has_event_code a EV_REL REL_Y
                 && libevdev_has_event_code a EV_KEY BTN_MOUSE in
  fst r =
    (if opened && (libevdev_new_from_fd a =? 0)
     then Some (Device ((if keyboard then WL_SEAT_CAPABILITY_KEYBOARD else 0)
                        + (if pointer then WL_SEAT_CAPABILITY_POINTER else 0))
                       (RelMotion 0 0 false))
     else None)
  /\ closes (snd r) =
     (if opened && negb (libevdev_new_from_fd a =? 0)
      then [swc_launch_open_device a] else [])
  /\ frees (snd r) = 0%nat.
Proof.
  cbn zeta. unfold swc_evdev_device_new.
  destruct (malloc_ok a); cbn [negb andb]; [|auto].
  destruct (swc_launch_open_device a =? -1); cbn [negb andb]; [auto|].
  destruct (libevdev_new_from_fd a =? 0); cbn [negb andb fst snd]; [|auto].
  split; [|auto].
  destruct (libevdev_has_event_code a EV_KEY KEY_ENTER),
           (libevdev_has_event_code a EV_REL REL_X
            && libevdev_has_event_code a EV_REL REL_Y
            && libevdev_has_event_code a EV_KEY BTN_MOUSE); reflexivity.
Qed.

Lemma handle_motion_events_reset dev time caps :
  capabilities dev = caps ->
  (pending (motion_rel dev) = false -> motion_rel dev = RelMotion 0 0 false) ->
  fst (handle_motion_events dev time) = new_device caps.
Proof.
  intros C I. unfold handle_motion_events.
  destruct (pending (motion_rel dev)) eqn:P.
  - subst caps. reflexivity.
  - cbn [fst]. destruct dev as [c m]. cbn in *. rewrite (I eq_refl), C.
    reflexivity.
Qed.

(** Handling an event keeps the capabilities, and keeps the accumulator
    at zero while nothing is pending. *)
Lemma handle_event_accumulator dev e caps :
  capabilities dev = caps
  /\ (pending (motion_rel dev) = false -> motion_rel dev = RelMotion 0 0 false) ->
  let dev' := fst (handle_event dev e) in
  capabilities dev' = caps
  /\ (pending (motion_rel dev') = false -> motion_rel dev' = RelMotion 0 0 false).
Proof.
  intros [C I]. cbn zeta. unfold handle_event.
  assert (F : exists d1 cb1,
             (if negb (is_motion_event e)
              then handle_motion_events dev (Some (timeval_to_msec (time e)))
              else (dev, [])) = (d1, cb1)
             /\ capabilities d1 = caps
             /\ (pending (motion_rel d1) = false ->
                 motion_rel d1 = RelMotion 0 0 false)).
  { destruct (negb (is_motion_event e)).
    - pose proof (handle_motion_events_reset dev
                    (Some (timeval_to_msec (time e))) caps C I) as R.
      destruct (handle_motion_events dev _) as [d1 cb1]. cbn [fst] in R.
      exists d1, cb1. subst d1. repeat split.
    - exists dev, []. auto. }
  destruct F as (d1 & cb1 & E & C1 & I1). rewrite E.
  destruct (type e <? ARRAY_SIZE_event_handlers); [|cbn; auto].
  unfold event_handlers.
  destruct (type e =? EV_KEY).
  - unfold handle_key_event. destruct (_ || _); cbn; auto.
  - destruct (type e =? EV_REL).
    + unfold handle_rel_event.
      destruct (code e =? REL_X); [cbn; split; [exact C1 | discriminate]|].
      destruct (code e =? REL_Y); [cbn; split; [exact C1 | discriminate]|].
      destruct (code e =? REL_WHEEL); [cbn; auto|].
      destruct (code e =? REL_HWHEEL); cbn; auto.
    + destruct (type e =? EV_ABS); cbn; auto.
Qed.

Lemma read_loop_accumulator caps calls : forall pt dev,
  capabilities dev = caps
  /\ (pending (motion_rel dev) = false -> motion_rel dev = RelMotion 0 0 false) ->
  let dev' := fst (fst (fst (read_loop calls pt dev))) in
  capabilities dev' = caps
  /\ (pending (motion_rel dev') = false -> motion_rel dev' = RelMotion 0 0 false).
Proof.
  induction calls as [|r calls IH]; intros pt dev P; cbn zeta.
  - destruct pt as [ev|e]; cbn [read_loop]; [exact P|].
    pose proof (handle_event_accumulator dev e caps P) as H.
    destruct (handle_event dev e). exact H.
  - assert (Step : forall e (d : swc_evdev_device) (cb : list callback),
               capabilities d = caps
               /\ (pending (motion_rel d) = false ->
                   motion_rel d = RelMotion 0 0 false) ->
               let dev' :=
                 fst (fst (fst (let '(device, cb', event', rest') :=
                                  read_loop calls (OuterRead (Some e)) d in
                                (device, cb ++ cb', event', rest')))) in
               capabilities dev' = caps
               /\ (pending (motion_rel dev') = false ->
                   motion_rel dev' = RelMotion 0 0 false)).
    { intros e d cb Pd. specialize (IH (OuterRead (Some e)) d Pd).
      cbn zeta in *.
      destruct (read_loop calls (OuterRead (Some e)) d) as [[[d1 c1] e1] r1].
      exact IH. }
    destruct r as [|ret e]; cbn [read_loop].
    + destruct pt as [ev|e0]; [exact P|].
      pose proof (handle_event_accumulator dev e0 caps P) as H.
      destruct (handle_event dev e0) as [d cb]. apply Step. exact H.
    + destruct (ret =? - EAGAIN).
      * destruct pt as [ev|e0]; [exact P|].
        pose proof (handle_event_accumulator dev e caps P) as H.
        destruct (handle_event dev e) as [d cb]. apply Step. exact H.
      * destruct (ret =? LIBEVDEV_READ_STATUS_SYNC).
        -- apply IH. exact P.
        -- pose proof (handle_event_accumulator dev e caps P) as H.
           destruct (handle_event dev e) as [d cb]. apply Step. exact H.
Qed.

(** X24. Whatever [handle_data] reads, it returns the device as
    [swc_evdev_device_new] made it: same capabilities, accumulator at
    zero, nothing pending; so it always starts from there. *)
Theorem handle_data_restores_device caps calls :
  fst (fst (handle_data (new_device caps) calls)) = new_device caps.
Proof.
  unfold handle_data.
  pose proof (read_loop_accumulator caps calls (OuterRead None) (new_device caps))
    as P.
  cbn zeta in P.
  destruct (read_loop calls (OuterRead None) (new_device caps))
    as [[[d cb] ev] rest].
  cbn [fst] in P. destruct P as [C I]; [split; [reflexivity | reflexivity]|].
  pose proof (handle_motion_events_reset d
                (handle_data_flush_time (new_device caps) calls) caps C I) as R.
  destruct (handle_motion_events d _) as [d' cb']. exact R.
Qed.

End PumpFacts.
